(** * DeFiBuilderGameFHE: a shallow embedding of the confidential solvency ledger

    The contract [DeFiBuilderGameFHE] keeps, per batch, two encrypted running
    totals (collateral and debt) and an encrypted solvency flag, and reveals
    the flag through a request / callback protocol.  Every external function
    of the contract is embedded as a function from a call environment
    (sender, timestamp) and a pre-state to either a post-state or the error
    the call reverts with.  Solidity mappings are total functions with the
    zero default, [uint256] values are naturals of [N] with the checked
    arithmetic of Solidity 0.8 written out, and the encrypted-arithmetic
    library is an interface whose laws are assumed where a statement needs
    them. *)

From Stdlib Require Import NArith ZArith List Bool Lia Permutation.
From Stdlib Require Import Strings.Byte.
Import ListNotations.
Open Scope N_scope.

(** ** Value types *)

Definition address := N.
Definition uint256 := N.
Definition bytes32 := N.
Definition bytes := list byte.

(** [euint32] and [ebool] are user-defined value types over [bytes32]: a
    handle to a ciphertext.  The zero handle is the uninitialised one, and it
    is what an unwritten mapping slot holds. *)
Definition euint32 := bytes32.
Definition ebool := bytes32.

Definition MAX_UINT256 : N := 2 ^ 256 - 1.

Definition toBytes32 (h : bytes32) : bytes32 := h.
Definition isInitialized (h : bytes32) : bool := negb (h =? 0).

(** ** Errors and the revert monad *)

Inductive error : Type :=
| NotOwner
| NotProvider
| PausedState
| CooldownActive
| BatchClosedOrNonExistent
| ReplayAttempt
| StateMismatch
| InvalidProof
| NotInitialized
| InvalidBatchOperation
| PanicOverflow. (* Panic(0x11) of the checked arithmetic *)

Inductive result (A : Type) : Type :=
| Ok (a : A)
| Revert (e : error).
Arguments Ok {A} a.
Arguments Revert {A} e.

Definition bind {A B : Type} (c : result A) (k : A -> result B) : result B :=
  match c with
  | Ok a => k a
  | Revert e => Revert e
  end.

Declare Scope revert_scope.
Delimit Scope revert_scope with revert.
Notation "x <- c ;; k" := (bind c (fun x => k))
  (at level 61, c at next level, right associativity) : revert_scope.
Notation "c ;; k" := (bind c (fun _ => k))
  (at level 61, right associativity) : revert_scope.
Notation "' pat <- c ;; k" := (bind c (fun x => match x with pat => k end))
  (at level 61, pat pattern, c at next level, right associativity) : revert_scope.
Open Scope revert_scope.

(** Checked addition of Solidity 0.8. *)
Definition checked_add (a b : uint256) : result uint256 :=
  if a + b <=? MAX_UINT256 then Ok (a + b) else Revert PanicOverflow.

Definition is_ok {A : Type} (r : result A) : bool :=
  match r with Ok _ => true | Revert _ => false end.

(** ** Events *)

Inductive event : Type :=
| OwnershipTransferred (previousOwner newOwner : address)
| ProviderAdded (provider : address)
| ProviderRemoved (provider : address)
| CooldownSecondsSet (oldCooldownSeconds newCooldownSeconds : uint256)
| Paused (account : address)
| Unpaused (account : address)
| BatchOpened (batchId : uint256)
| BatchClosed (batchId : uint256)
| CollateralSubmitted (provider : address) (batchId : uint256) (ciphertext : bytes32)
| DebtSubmitted (provider : address) (batchId : uint256) (ciphertext : bytes32)
| SolvencyCalculated (batchId : uint256) (isSolventCiphertext : bytes32)
| DecryptionRequested (requestId batchId : uint256) (stateHash : bytes32)
| DecryptionCompleted (requestId batchId : uint256) (isSolvent : bool).

(** ** Storage *)

Record DecryptionContext : Type := mkContext {
  batchId : uint256;
  stateHash : bytes32;
  processed : bool
}.

Definition noContext : DecryptionContext := mkContext 0 0 false.

Record state : Type := mkState {
  owner : address;
  isProvider : address -> bool;
  lastSubmissionTime : address -> uint256;
  lastDecryptionRequestTime : address -> uint256;
  cooldownSeconds : uint256;
  paused : bool;
  currentBatchId : uint256;
  batchOpen : bool;
  decryptionContexts : uint256 -> DecryptionContext;
  encryptedCollateralAmounts : uint256 -> address -> euint32;
  encryptedDebtAmounts : uint256 -> address -> euint32;
  totalEncryptedCollateral : uint256 -> euint32;
  totalEncryptedDebt : uint256 -> euint32;
  isProtocolSolvent : uint256 -> ebool;
  (* the decryption channel's request counter, see [requestDecryption] *)
  counterRequest : uint256;
  (* the event log, oldest first *)
  events : list event
}.

(** The storage of a contract before its constructor runs: every slot zero,
    nothing logged. *)
Definition zero_storage : state :=
  mkState 0 (fun _ => false) (fun _ => 0) (fun _ => 0) 0 false 0 false
    (fun _ => noContext) (fun _ _ => 0) (fun _ _ => 0)
    (fun _ => 0) (fun _ => 0) (fun _ => 0) 0 [].

(** The call environment: [msg.sender] and [block.timestamp]. *)
Record env : Type := mkEnv {
  msg_sender : address;
  block_timestamp : uint256
}.

(** Mapping update. *)
Definition upd {A : Type} (m : N -> A) (k : N) (v : A) : N -> A :=
  fun k' => if k' =? k then v else m k'.

Definition upd2 {A : Type} (m : N -> N -> A) (k1 k2 : N) (v : A) : N -> N -> A :=
  upd m k1 (upd (m k1) k2 v).

(** Field setters. *)
Definition set_owner (v : address) (s : state) : state :=
  mkState v (isProvider s) (lastSubmissionTime s) (lastDecryptionRequestTime s)
    (cooldownSeconds s) (paused s) (currentBatchId s) (batchOpen s)
    (decryptionContexts s) (encryptedCollateralAmounts s) (encryptedDebtAmounts s)
    (totalEncryptedCollateral s) (totalEncryptedDebt s) (isProtocolSolvent s)
    (counterRequest s) (events s).

Definition set_isProvider (v : address -> bool) (s : state) : state :=
  mkState (owner s) v (lastSubmissionTime s) (lastDecryptionRequestTime s)
    (cooldownSeconds s) (paused s) (currentBatchId s) (batchOpen s)
    (decryptionContexts s) (encryptedCollateralAmounts s) (encryptedDebtAmounts s)
    (totalEncryptedCollateral s) (totalEncryptedDebt s) (isProtocolSolvent s)
    (counterRequest s) (events s).

Definition set_lastSubmissionTime (v : address -> uint256) (s : state) : state :=
  mkState (owner s) (isProvider s) v (lastDecryptionRequestTime s)
    (cooldownSeconds s) (paused s) (currentBatchId s) (batchOpen s)
    (decryptionContexts s) (encryptedCollateralAmounts s) (encryptedDebtAmounts s)
    (totalEncryptedCollateral s) (totalEncryptedDebt s) (isProtocolSolvent s)
    (counterRequest s) (events s).

Definition set_lastDecryptionRequestTime (v : address -> uint256) (s : state) : state :=
  mkState (owner s) (isProvider s) (lastSubmissionTime s) v
    (cooldownSeconds s) (paused s) (currentBatchId s) (batchOpen s)
    (decryptionContexts s) (encryptedCollateralAmounts s) (encryptedDebtAmounts s)
    (totalEncryptedCollateral s) (totalEncryptedDebt s) (isProtocolSolvent s)
    (counterRequest s) (events s).

Definition set_cooldownSeconds (v : uint256) (s : state) : state :=
  mkState (owner s) (isProvider s) (lastSubmissionTime s) (lastDecryptionRequestTime s)
    v (paused s) (currentBatchId s) (batchOpen s)
    (decryptionContexts s) (encryptedCollateralAmounts s) (encryptedDebtAmounts s)
    (totalEncryptedCollateral s) (totalEncryptedDebt s) (isProtocolSolvent s)
    (counterRequest s) (events s).

Definition set_paused (v : bool) (s : state) : state :=
  mkState (owner s) (isProvider s) (lastSubmissionTime s) (lastDecryptionRequestTime s)
    (cooldownSeconds s) v (currentBatchId s) (batchOpen s)
    (decryptionContexts s) (encryptedCollateralAmounts s) (encryptedDebtAmounts s)
    (totalEncryptedCollateral s) (totalEncryptedDebt s) (isProtocolSolvent s)
    (counterRequest s) (events s).

Definition set_currentBatchId (v : uint256) (s : state) : state :=
  mkState (owner s) (isProvider s) (lastSubmissionTime s) (lastDecryptionRequestTime s)
    (cooldownSeconds s) (paused s) v (batchOpen s)
    (decryptionContexts s) (encryptedCollateralAmounts s) (encryptedDebtAmounts s)
    (totalEncryptedCollateral s) (totalEncryptedDebt s) (isProtocolSolvent s)
    (counterRequest s) (events s).

Definition set_batchOpen (v : bool) (s : state) : state :=
  mkState (owner s) (isProvider s) (lastSubmissionTime s) (lastDecryptionRequestTime s)
    (cooldownSeconds s) (paused s) (currentBatchId s) v
    (decryptionContexts s) (encryptedCollateralAmounts s) (encryptedDebtAmounts s)
    (totalEncryptedCollateral s) (totalEncryptedDebt s) (isProtocolSolvent s)
    (counterRequest s) (events s).

Definition set_decryptionContexts (v : uint256 -> DecryptionContext) (s : state) : state :=
  mkState (owner s) (isProvider s) (lastSubmissionTime s) (lastDecryptionRequestTime s)
    (cooldownSeconds s) (paused s) (currentBatchId s) (batchOpen s)
    v (encryptedCollateralAmounts s) (encryptedDebtAmounts s)
    (totalEncryptedCollateral s) (totalEncryptedDebt s) (isProtocolSolvent s)
    (counterRequest s) (events s).

Definition set_encryptedCollateralAmounts (v : uint256 -> address -> euint32) (s : state) : state :=
  mkState (owner s) (isProvider s) (lastSubmissionTime s) (lastDecryptionRequestTime s)
    (cooldownSeconds s) (paused s) (currentBatchId s) (batchOpen s)
    (decryptionContexts s) v (encryptedDebtAmounts s)
    (totalEncryptedCollateral s) (totalEncryptedDebt s) (isProtocolSolvent s)
    (counterRequest s) (events s).

Definition set_encryptedDebtAmounts (v : uint256 -> address -> euint32) (s : state) : state :=
  mkState (owner s) (isProvider s) (lastSubmissionTime s) (lastDecryptionRequestTime s)
    (cooldownSeconds s) (paused s) (currentBatchId s) (batchOpen s)
    (decryptionContexts s) (encryptedCollateralAmounts s) v
    (totalEncryptedCollateral s) (totalEncryptedDebt s) (isProtocolSolvent s)
    (counterRequest s) (events s).

Definition set_totalEncryptedCollateral (v : uint256 -> euint32) (s : state) : state :=
  mkState (owner s) (isProvider s) (lastSubmissionTime s) (lastDecryptionRequestTime s)
    (cooldownSeconds s) (paused s) (currentBatchId s) (batchOpen s)
    (decryptionContexts s) (encryptedCollateralAmounts s) (encryptedDebtAmounts s)
    v (totalEncryptedDebt s) (isProtocolSolvent s)
    (counterRequest s) (events s).

Definition set_totalEncryptedDebt (v : uint256 -> euint32) (s : state) : state :=
  mkState (owner s) (isProvider s) (lastSubmissionTime s) (lastDecryptionRequestTime s)
    (cooldownSeconds s) (paused s) (currentBatchId s) (batchOpen s)
    (decryptionContexts s) (encryptedCollateralAmounts s) (encryptedDebtAmounts s)
    (totalEncryptedCollateral s) v (isProtocolSolvent s)
    (counterRequest s) (events s).

Definition set_isProtocolSolvent (v : uint256 -> ebool) (s : state) : state :=
  mkState (owner s) (isProvider s) (lastSubmissionTime s) (lastDecryptionRequestTime s)
    (cooldownSeconds s) (paused s) (currentBatchId s) (batchOpen s)
    (decryptionContexts s) (encryptedCollateralAmounts s) (encryptedDebtAmounts s)
    (totalEncryptedCollateral s) (totalEncryptedDebt s) v
    (counterRequest s) (events s).

Definition set_counterRequest (v : uint256) (s : state) : state :=
  mkState (owner s) (isProvider s) (lastSubmissionTime s) (lastDecryptionRequestTime s)
    (cooldownSeconds s) (paused s) (currentBatchId s) (batchOpen s)
    (decryptionContexts s) (encryptedCollateralAmounts s) (encryptedDebtAmounts s)
    (totalEncryptedCollateral s) (totalEncryptedDebt s) (isProtocolSolvent s)
    v (events s).

Definition emit (ev : event) (s : state) : state :=
  mkState (owner s) (isProvider s) (lastSubmissionTime s) (lastDecryptionRequestTime s)
    (cooldownSeconds s) (paused s) (currentBatchId s) (batchOpen s)
    (decryptionContexts s) (encryptedCollateralAmounts s) (encryptedDebtAmounts s)
    (totalEncryptedCollateral s) (totalEncryptedDebt s) (isProtocolSolvent s)
    (counterRequest s) (events s ++ [ev]).

(** ** The encrypted-arithmetic host

    The contract imports the FHE library and inherits the network
    configuration; neither is part of the contract's own code.  The operations
    it calls are the fields of this interface.  [hashEncode cts a] stands for
    [keccak256(abi.encode(cts, a))], and [decrypt32] / [decryptBool] give the
    plaintext under a handle (they are never called by the contract; the
    homomorphic laws below are stated with them). *)

Class FHEVM : Type := {
  asEuint32 : N -> euint32;
  asEbool : bool -> ebool;
  fhe_add : euint32 -> euint32 -> euint32;
  fhe_ge : euint32 -> euint32 -> ebool;
  checkSignatures : uint256 -> bytes -> bytes -> bool;
  hashEncode : list bytes32 -> address -> bytes32;
  address_this : address;
  decrypt32 : euint32 -> N;
  decryptBool : ebool -> bool
}.

(** The laws of the host that the statements below rely on, each assumed
    only where it is used. *)
Definition init_law (vm : FHEVM) : Prop :=
  (forall v, isInitialized (asEuint32 v) = true) /\
  (forall b, isInitialized (asEbool b) = true) /\
  (forall a b, isInitialized (fhe_add a b) = true) /\
  (forall a b, isInitialized (fhe_ge a b) = true).

Definition add_law (vm : FHEVM) : Prop :=
  (forall v, decrypt32 (asEuint32 v) = v mod 2 ^ 32) /\
  (forall a b, decrypt32 (fhe_add a b) = (decrypt32 a + decrypt32 b) mod 2 ^ 32).

Definition ge_law (vm : FHEVM) : Prop :=
  forall a b, decryptBool (fhe_ge a b) = (decrypt32 b <=? decrypt32 a).

(** Collision freedom of the fingerprint on the one-element lists the
    contract hashes, and the fingerprint never being the zero word. *)
Definition hash_injective (vm : FHEVM) : Prop :=
  forall h h', hashEncode [h] address_this = hashEncode [h'] address_this -> h = h'.

Definition hash_nonzero (vm : FHEVM) : Prop :=
  forall cts, hashEncode cts address_this <> 0.

(** ** The contract *)

Section Contract.

Context {vm : FHEVM}.

(** *** Modifiers *)

Definition onlyOwner (e : env) (s : state) : result unit :=
  if negb (msg_sender e =? owner s) then Revert NotOwner else Ok tt.

Definition onlyProvider (e : env) (s : state) : result unit :=
  if negb (isProvider s (msg_sender e)) then Revert NotProvider else Ok tt.

Definition whenNotPaused (s : state) : result unit :=
  if paused s then Revert PausedState else Ok tt.

Definition respectCooldown (e : env) (user : address)
    (cooldownMapping : address -> uint256) (s : state) : result unit :=
  deadline <- checked_add (cooldownMapping user) (cooldownSeconds s) ;;
  if block_timestamp e <? deadline then Revert CooldownActive else Ok tt.

(** The cooldown test of [respectCooldown] passes for the caller: the
    deadline fits in a word and is not after the timestamp. *)
Definition cooldown_elapsed (e : env) (last : address -> uint256) (s : state) : Prop :=
  last (msg_sender e) + cooldownSeconds s <= MAX_UINT256 /\
  last (msg_sender e) + cooldownSeconds s <= block_timestamp e.

(** *** Internal functions *)

Definition _hashCiphertexts (cts : list bytes32) : bytes32 :=
  hashEncode cts address_this.

Definition _initIfNeeded (val : bytes32) : result unit :=
  if negb (isInitialized val) then Revert NotInitialized else Ok tt.

Definition _isValidBatch (batchId : uint256) (s : state) : bool :=
  (0 <? batchId) && (batchId <=? currentBatchId s).

Definition _calculateSolvency (batchId : uint256) (s : state) : result state :=
  _initIfNeeded (totalEncryptedCollateral s batchId) ;;
  _initIfNeeded (totalEncryptedDebt s batchId) ;;
  let internalIsSolvent :=
    fhe_ge (totalEncryptedCollateral s batchId) (totalEncryptedDebt s batchId) in
  let s := set_isProtocolSolvent (upd (isProtocolSolvent s) batchId internalIsSolvent) s in
  Ok (emit (SolvencyCalculated batchId (toBytes32 internalIsSolvent)) s).

(** Modelled from the spec: [FHE.requestDecryption] belongs to the imported
    library, not to the contract.  The spec has the decryption channel hand
    out a fresh request identifier for every request; here the channel keeps
    a counter, returns its value and increments it (checked, as all
    arithmetic is). *)
Definition requestDecryption (cts : list bytes32) (s : state) : result (uint256 * state) :=
  let requestID := counterRequest s in
  next <- checked_add requestID 1 ;;
  Ok (requestID, set_counterRequest next s).

(** *** Constructor and external functions *)

Definition constructor (e : env) : state :=
  let s := set_owner (msg_sender e) zero_storage in
  let s := set_isProvider (upd (isProvider s) (owner s) true) s in
  let s := set_cooldownSeconds 60 s in
  let s := set_paused false s in
  let s := set_currentBatchId 0 s in
  let s := set_batchOpen false s in
  emit (ProviderAdded (owner s)) s.

Definition transferOwnership (e : env) (newOwner : address) (s : state) : result state :=
  onlyOwner e s ;;
  let previousOwner := owner s in
  let s := set_owner newOwner s in
  Ok (emit (OwnershipTransferred previousOwner newOwner) s).

Definition addProvider (e : env) (provider : address) (s : state) : result state :=
  onlyOwner e s ;;
  if negb (isProvider s provider) then
    let s := set_isProvider (upd (isProvider s) provider true) s in
    Ok (emit (ProviderAdded provider) s)
  else Ok s.

Definition removeProvider (e : env) (provider : address) (s : state) : result state :=
  onlyOwner e s ;;
  if isProvider s provider && negb (provider =? owner s) then
    let s := set_isProvider (upd (isProvider s) provider false) s in
    Ok (emit (ProviderRemoved provider) s)
  else Ok s.

Definition setCooldownSeconds (e : env) (newCooldownSeconds : uint256) (s : state)
    : result state :=
  onlyOwner e s ;;
  let oldCooldownSeconds := cooldownSeconds s in
  let s := set_cooldownSeconds newCooldownSeconds s in
  Ok (emit (CooldownSecondsSet oldCooldownSeconds newCooldownSeconds) s).

Definition pause (e : env) (s : state) : result state :=
  onlyOwner e s ;;
  whenNotPaused s ;;
  let s := set_paused true s in
  Ok (emit (Paused (msg_sender e)) s).

Definition unpause (e : env) (s : state) : result state :=
  onlyOwner e s ;;
  let s := set_paused false s in
  Ok (emit (Unpaused (msg_sender e)) s).

Definition openBatch (e : env) (s : state) : result state :=
  onlyOwner e s ;;
  whenNotPaused s ;;
  if batchOpen s then Revert InvalidBatchOperation else
  next <- checked_add (currentBatchId s) 1 ;;
  let s := set_currentBatchId next s in
  let s := set_batchOpen true s in
  let s := set_totalEncryptedCollateral
             (upd (totalEncryptedCollateral s) (currentBatchId s) (asEuint32 0)) s in
  let s := set_totalEncryptedDebt
             (upd (totalEncryptedDebt s) (currentBatchId s) (asEuint32 0)) s in
  let s := set_isProtocolSolvent
             (upd (isProtocolSolvent s) (currentBatchId s) (asEbool false)) s in
  Ok (emit (BatchOpened (currentBatchId s)) s).

Definition closeBatch (e : env) (s : state) : result state :=
  onlyOwner e s ;;
  whenNotPaused s ;;
  if negb (batchOpen s) then Revert InvalidBatchOperation else
  let s := set_batchOpen false s in
  s <- _calculateSolvency (currentBatchId s) s ;;
  Ok (emit (BatchClosed (currentBatchId s)) s).

Definition submitCollateral (e : env) (batchId : uint256) (encryptedAmount : euint32)
    (s : state) : result state :=
  onlyProvider e s ;;
  whenNotPaused s ;;
  respectCooldown e (msg_sender e) (lastSubmissionTime s) s ;;
  if negb (_isValidBatch batchId s) then Revert BatchClosedOrNonExistent else
  _initIfNeeded encryptedAmount ;;
  let s := set_encryptedCollateralAmounts
             (upd2 (encryptedCollateralAmounts s) batchId (msg_sender e) encryptedAmount) s in
  let s := set_totalEncryptedCollateral
             (upd (totalEncryptedCollateral s) batchId
                (fhe_add (totalEncryptedCollateral s batchId) encryptedAmount)) s in
  let s := set_lastSubmissionTime
             (upd (lastSubmissionTime s) (msg_sender e) (block_timestamp e)) s in
  Ok (emit (CollateralSubmitted (msg_sender e) batchId (toBytes32 encryptedAmount)) s).

Definition submitDebt (e : env) (batchId : uint256) (encryptedAmount : euint32)
    (s : state) : result state :=
  onlyProvider e s ;;
  whenNotPaused s ;;
  respectCooldown e (msg_sender e) (lastSubmissionTime s) s ;;
  if negb (_isValidBatch batchId s) then Revert BatchClosedOrNonExistent else
  _initIfNeeded encryptedAmount ;;
  let s := set_encryptedDebtAmounts
             (upd2 (encryptedDebtAmounts s) batchId (msg_sender e) encryptedAmount) s in
  let s := set_totalEncryptedDebt
             (upd (totalEncryptedDebt s) batchId
                (fhe_add (totalEncryptedDebt s batchId) encryptedAmount)) s in
  let s := set_lastSubmissionTime
             (upd (lastSubmissionTime s) (msg_sender e) (block_timestamp e)) s in
  Ok (emit (DebtSubmitted (msg_sender e) batchId (toBytes32 encryptedAmount)) s).

Definition calculateSolvency (e : env) (batchId : uint256) (s : state) : result state :=
  onlyProvider e s ;;
  whenNotPaused s ;;
  respectCooldown e (msg_sender e) (lastSubmissionTime s) s ;;
  if negb (_isValidBatch batchId s) then Revert BatchClosedOrNonExistent else
  _calculateSolvency batchId s.

Definition requestSolvencyDecryption (e : env) (batchId : uint256) (s : state)
    : result state :=
  onlyProvider e s ;;
  whenNotPaused s ;;
  respectCooldown e (msg_sender e) (lastDecryptionRequestTime s) s ;;
  if negb (_isValidBatch batchId s) then Revert BatchClosedOrNonExistent else
  _initIfNeeded (isProtocolSolvent s batchId) ;;
  let cts := [toBytes32 (isProtocolSolvent s batchId)] in
  let stateHash := _hashCiphertexts cts in
  '(requestId, s) <- requestDecryption cts s ;;
  let s := set_decryptionContexts
             (upd (decryptionContexts s) requestId (mkContext batchId stateHash false)) s in
  let s := set_lastDecryptionRequestTime
             (upd (lastDecryptionRequestTime s) (msg_sender e) (block_timestamp e)) s in
  Ok (emit (DecryptionRequested requestId batchId stateHash) s).

Definition myCallback (e : env) (requestId : uint256) (cleartexts proof : bytes)
    (s : state) : result state :=
  if processed (decryptionContexts s requestId) then Revert ReplayAttempt else
  let cts := [toBytes32 (isProtocolSolvent s (batchId (decryptionContexts s requestId)))] in
  let currentHash := _hashCiphertexts cts in
  if negb (currentHash =? stateHash (decryptionContexts s requestId))
  then Revert StateMismatch else
  if negb (checkSignatures requestId cleartexts proof) then Revert InvalidProof else
  if negb (N.of_nat (length cleartexts) =? 1) then Revert InvalidProof else
  let isSolvent := negb (Byte.eqb (nth 0 cleartexts x00) x00) in
  let ctx := decryptionContexts s requestId in
  let s := set_decryptionContexts
             (upd (decryptionContexts s) requestId
                (mkContext (batchId ctx) (stateHash ctx) true)) s in
  Ok (emit (DecryptionCompleted requestId (batchId (decryptionContexts s requestId)) isSolvent) s).

(** *** Transactions and traces *)

Inductive call : Type :=
| TransferOwnership (newOwner : address)
| AddProvider (provider : address)
| RemoveProvider (provider : address)
| SetCooldownSeconds (newCooldownSeconds : uint256)
| Pause
| Unpause
| OpenBatch
| CloseBatch
| SubmitCollateral (batchId : uint256) (encryptedAmount : euint32)
| SubmitDebt (batchId : uint256) (encryptedAmount : euint32)
| CalculateSolvency (batchId : uint256)
| RequestSolvencyDecryption (batchId : uint256)
| MyCallback (requestId : uint256) (cleartexts proof : bytes).

Definition dispatch (e : env) (c : call) (s : state) : result state :=
  match c with
  | TransferOwnership newOwner => transferOwnership e newOwner s
  | AddProvider provider => addProvider e provider s
  | RemoveProvider provider => removeProvider e provider s
  | SetCooldownSeconds n => setCooldownSeconds e n s
  | Pause => pause e s
  | Unpause => unpause e s
  | OpenBatch => openBatch e s
  | CloseBatch => closeBatch e s
  | SubmitCollateral b v => submitCollateral e b v s
  | SubmitDebt b v => submitDebt e b v s
  | CalculateSolvency b => calculateSolvency e b s
  | RequestSolvencyDecryption b => requestSolvencyDecryption e b s
  | MyCallback r c p => myCallback e r c p s
  end.

(** A transaction either commits its post-state or reverts to the pre-state. *)
Definition transact (s : state) (tx : env * call) : state :=
  match dispatch (fst tx) (snd tx) s with
  | Ok s' => s'
  | Revert _ => s
  end.

Definition run (s : state) (txs : list (env * call)) : state :=
  fold_left transact txs s.

Definition reachable (s : state) : Prop :=
  exists (deployer : env) (txs : list (env * call)), s = run (constructor deployer) txs.

(** The calls that carry the [whenNotPaused] modifier besides [pause]. *)
Definition pausable (c : call) : bool :=
  match c with
  | OpenBatch | CloseBatch | SubmitCollateral _ _ | SubmitDebt _ _
  | CalculateSolvency _ | RequestSolvencyDecryption _ => true
  | _ => false
  end.

End Contract.

(** ** Reading the event log *)

Section Audit.

Context {vm : FHEVM}.

Definition collateralOf (b : uint256) (ev : event) : list euint32 :=
  match ev with
  | CollateralSubmitted _ b' ct => if b' =? b then [ct] else []
  | _ => []
  end.

Definition debtOf (b : uint256) (ev : event) : list euint32 :=
  match ev with
  | DebtSubmitted _ b' ct => if b' =? b then [ct] else []
  | _ => []
  end.

(** The ciphertexts of the accepted submissions into batch [b], in the order
    in which they were accepted. *)
Definition collateralSubmissions (b : uint256) (log : list event) : list euint32 :=
  flat_map (collateralOf b) log.

Definition debtSubmissions (b : uint256) (log : list event) : list euint32 :=
  flat_map (debtOf b) log.

(** The homomorphic sum of a list of ciphertexts, from the encrypted zero. *)
Definition homomorphicSum (l : list euint32) : euint32 :=
  fold_left fhe_add l (asEuint32 0).

(** The sum of the plaintexts, in 32-bit arithmetic. *)
Definition plainSum (l : list euint32) : N :=
  fold_right (fun h acc => decrypt32 h + acc) 0 l mod 2 ^ 32.

Definition completionOf (r : uint256) (ev : event) : nat :=
  match ev with
  | DecryptionCompleted r' _ _ => if r' =? r then 1%nat else 0%nat
  | _ => 0%nat
  end.

(** How many times request [r] was finalised according to the log. *)
Definition completions (r : uint256) (log : list event) : nat :=
  fold_right (fun ev n => (completionOf r ev + n)%nat) 0%nat log.

(** The oracle bookkeeping agrees with the log: a request identifier the
    channel has not handed out yet has no context, and a request is marked
    processed exactly when the log holds its one completion event. *)
Definition oracle_consistent (s : state) : Prop :=
  forall r,
    (counterRequest s <= r -> decryptionContexts s r = noContext) /\
    completions r (events s) = if processed (decryptionContexts s r) then 1%nat else 0%nat.

(** The ciphertext a call submits as collateral (resp. debt) into batch [b]. *)
Definition collateralIn (b : uint256) (c : call) : list euint32 :=
  match c with
  | SubmitCollateral b' v => if b' =? b then [v] else []
  | _ => []
  end.

Definition debtIn (b : uint256) (c : call) : list euint32 :=
  match c with
  | SubmitDebt b' v => if b' =? b then [v] else []
  | _ => []
  end.

(** The collateral (resp. debt) submissions into batch [b] that the contract
    accepted along a trace started in [s], in the order of the trace; a
    submission that reverted is not among them. *)
Fixpoint acceptedCollateral (b : uint256) (s : state) (txs : list (env * call))
    : list euint32 :=
  match txs with
  | [] => []
  | tx :: txs' =>
      (if is_ok (dispatch (fst tx) (snd tx) s) then collateralIn b (snd tx) else [])
        ++ acceptedCollateral b (transact s tx) txs'
  end.

Fixpoint acceptedDebt (b : uint256) (s : state) (txs : list (env * call))
    : list euint32 :=
  match txs with
  | [] => []
  | tx :: txs' =>
      (if is_ok (dispatch (fst tx) (snd tx) s) then debtIn b (snd tx) else [])
        ++ acceptedDebt b (transact s tx) txs'
  end.

(** Every batch that exists has initialised totals and flag, and a batch can
    only be open once one exists. *)
Definition batches_well_formed (s : state) : Prop :=
  (batchOpen s = true -> 1 <= currentBatchId s) /\
  forall b, 1 <= b <= currentBatchId s ->
    isInitialized (totalEncryptedCollateral s b) = true /\
    isInitialized (totalEncryptedDebt s b) = true /\
    isInitialized (isProtocolSolvent s b) = true.

(** The running totals are the homomorphic sums of the logged submissions,
    and nothing is logged for a batch that does not exist yet. *)
Definition totals_are_sums (s : state) : Prop :=
  forall b,
    (1 <= b <= currentBatchId s ->
     totalEncryptedCollateral s b = homomorphicSum (collateralSubmissions b (events s)) /\
     totalEncryptedDebt s b = homomorphicSum (debtSubmissions b (events s))) /\
    (currentBatchId s < b ->
     collateralSubmissions b (events s) = [] /\ debtSubmissions b (events s) = []).

End Audit.

(** The access-control and rate-limiter part of the storage: owner, provider
    set, pause flag, cooldown window and both timestamp tables. *)
Record access : Type := mkAccess {
  a_owner : address;
  a_isProvider : address -> bool;
  a_lastSubmissionTime : address -> uint256;
  a_lastDecryptionRequestTime : address -> uint256;
  a_cooldownSeconds : uint256;
  a_paused : bool
}.

Definition with_access (a : access) (s : state) : state :=
  mkState (a_owner a) (a_isProvider a) (a_lastSubmissionTime a)
    (a_lastDecryptionRequestTime a) (a_cooldownSeconds a) (a_paused a)
    (currentBatchId s) (batchOpen s)
    (decryptionContexts s) (encryptedCollateralAmounts s) (encryptedDebtAmounts s)
    (totalEncryptedCollateral s) (totalEncryptedDebt s) (isProtocolSolvent s)
    (counterRequest s) (events s).

Definition map_result {A B : Type} (f : A -> B) (r : result A) : result B :=
  match r with
  | Ok a => Ok (f a)
  | Revert e => Revert e
  end.

(** ** A plaintext host

    An instance of the interface that computes on plaintexts: the handle of
    the 32-bit value [v] is [v + 1] (so that no handle it makes is the zero
    handle), the handles of [false] and [true] are 1 and 2, the fingerprint
    of a list is one more than the sum of its elements and of the address,
    and a proof is accepted when it is not empty.  It is used to run the
    contract on concrete transactions. *)

Definition plain_decrypt32 (h : euint32) : N := (h - 1) mod 2 ^ 32.

#[local] Instance plainVM : FHEVM := {|
  asEuint32 := fun v => v mod 2 ^ 32 + 1;
  asEbool := fun b => if b then 2 else 1;
  fhe_add := fun a b => (plain_decrypt32 a + plain_decrypt32 b) mod 2 ^ 32 + 1;
  fhe_ge := fun a b => if plain_decrypt32 b <=? plain_decrypt32 a then 2 else 1;
  checkSignatures := fun _ _ proof => negb (N.of_nat (length proof) =? 0);
  hashEncode := fun cts a => fold_right N.add 0 cts + a + 1;
  address_this := 4096;
  decrypt32 := plain_decrypt32;
  decryptBool := fun h => h =? 2
|}.

(** Concrete actors, transactions and traces for the examples.  Alice
    deploys the contract at time 1000; Bob holds no role. *)
Definition alice : address := 1.
Definition bob : address := 2.
Definition at_time (who : address) (t : uint256) : env := mkEnv who t.

Definition deployed : state := constructor (at_time alice 1000).

Definition tx_open : env * call := (at_time alice 1000, OpenBatch).
Definition tx_close : env * call := (at_time alice 1100, CloseBatch).
Definition tx_pause : env * call := (at_time alice 1200, Pause).
(* handles 101, 51 and 81 hold the plaintexts 100, 50 and 80 *)
Definition tx_collateral_100 : env * call := (at_time alice 1500, SubmitCollateral 1 101).
Definition tx_collateral_50 : env * call := (at_time alice 1600, SubmitCollateral 1 51).
Definition tx_debt_80 : env * call := (at_time alice 1700, SubmitDebt 1 81).
Definition tx_solvency : env * call := (at_time alice 1800, CalculateSolvency 1).
Definition tx_request : env * call := (at_time alice 2000, RequestSolvencyDecryption 1).
Definition tx_recompute : env * call := (at_time alice 2100, CalculateSolvency 1).
Definition tx_fulfil : env * call := (at_time bob 3000, MyCallback 0 [x01] [x01]).

(** Batch 1 opened by the owner. *)
Definition batch1_open : state := run (vm := plainVM) deployed [tx_open].

(** Batch 1 opened and closed again. *)
Definition batch1_closed : state := run (vm := plainVM) deployed [tx_open; tx_close].

(** Batch 1 open, contract paused. *)
Definition batch1_paused : state := run (vm := plainVM) deployed [tx_open; tx_pause].

(** Ownership handed to Bob right after deployment. *)
Definition handed_over : state :=
  run (vm := plainVM) deployed [(at_time alice 1000, TransferOwnership bob)].

(** Bob made a provider right after deployment. *)
Definition bob_added : state :=
  run (vm := plainVM) deployed [(at_time alice 1000, AddProvider bob)].

(** Collateral 100 and debt 80 in batch 1. *)
Definition funded : state :=
  run (vm := plainVM) deployed [tx_open; tx_collateral_100; tx_debt_80].

(** Collateral 100 in batch 1 and a decryption request for its flag, which
    at that point is still the encryption of false from [openBatch]. *)
Definition collateral_only : state :=
  run (vm := plainVM) deployed [tx_open; tx_collateral_100].
Definition requested : state :=
  run (vm := plainVM) deployed [tx_open; tx_collateral_100; tx_request].

(** The same request fulfilled by Bob. *)
Definition fulfilled : state :=
  run (vm := plainVM) deployed [tx_open; tx_collateral_100; tx_request; tx_fulfil].

(** The window set to the largest word after Alice's first submission. *)
Definition window_max : state :=
  run (vm := plainVM) deployed
    [tx_open; tx_collateral_100; (at_time alice 1550, SetCooldownSeconds MAX_UINT256)].

(** ** Further readings of the storage, the log and a trace *)

(** The storage without its log. *)
Definition forget_log (s : state) : state :=
  mkState (owner s) (isProvider s) (lastSubmissionTime s) (lastDecryptionRequestTime s)
    (cooldownSeconds s) (paused s) (currentBatchId s) (batchOpen s)
    (decryptionContexts s) (encryptedCollateralAmounts s) (encryptedDebtAmounts s)
    (totalEncryptedCollateral s) (totalEncryptedDebt s) (isProtocolSolvent s)
    (counterRequest s) [].

(** A caller that is neither the owner nor a provider. *)
Definition outsider (e : env) (s : state) : bool :=
  negb (msg_sender e =? owner s) && negb (isProvider s (msg_sender e)).

Definition openedOf (ev : event) : list uint256 :=
  match ev with BatchOpened b => [b] | _ => [] end.

Definition closedOf (ev : event) : list uint256 :=
  match ev with BatchClosed b => [b] | _ => [] end.

Definition requestedOf (ev : event) : list uint256 :=
  match ev with DecryptionRequested r _ _ => [r] | _ => [] end.

(** The batch identifiers of the [BatchOpened] (resp. [BatchClosed]) events
    and the request identifiers of the [DecryptionRequested] events of a log,
    oldest first. *)
Definition openedBatches (log : list event) : list uint256 := flat_map openedOf log.
Definition closedBatches (log : list event) : list uint256 := flat_map closedOf log.
Definition requestedIds (log : list event) : list uint256 := flat_map requestedOf log.

(** The [n] consecutive numbers from [first] on. *)
Definition consecutive (first n : N) : list N :=
  map N.of_nat (seq (N.to_nat first) (N.to_nat n)).

(** The ciphertext a transaction submits as collateral (resp. debt) into
    batch [b] on behalf of participant [a]. *)
Definition collateralBy (b : uint256) (a : address) (tx : env * call) : list euint32 :=
  match snd tx with
  | SubmitCollateral b' v => if (b' =? b) && (msg_sender (fst tx) =? a) then [v] else []
  | _ => []
  end.

Definition debtBy (b : uint256) (a : address) (tx : env * call) : list euint32 :=
  match snd tx with
  | SubmitDebt b' v => if (b' =? b) && (msg_sender (fst tx) =? a) then [v] else []
  | _ => []
  end.

Section Participants.

Context {vm : FHEVM}.

(** The collateral (resp. debt) submissions of participant [a] into batch
    [b] accepted along a trace started in [s], in trace order. *)
Fixpoint acceptedCollateralBy (b : uint256) (a : address) (s : state)
    (txs : list (env * call)) : list euint32 :=
  match txs with
  | [] => []
  | tx :: txs' =>
      (if is_ok (dispatch (fst tx) (snd tx) s) then collateralBy b a tx else [])
        ++ acceptedCollateralBy b a (transact s tx) txs'
  end.

Fixpoint acceptedDebtBy (b : uint256) (a : address) (s : state)
    (txs : list (env * call)) : list euint32 :=
  match txs with
  | [] => []
  | tx :: txs' =>
      (if is_ok (dispatch (fst tx) (snd tx) s) then debtBy b a tx else [])
        ++ acceptedDebtBy b a (transact s tx) txs'
  end.

(** The timestamp a transaction brings when it is a collateral or debt
    submission by [a], and the timestamps of the submissions by [a] accepted
    along a trace started in [s], in trace order. *)
Definition submissionTimeBy (a : address) (tx : env * call) : list uint256 :=
  match snd tx with
  | SubmitCollateral _ _ | SubmitDebt _ _ =>
      if msg_sender (fst tx) =? a then [block_timestamp (fst tx)] else []
  | _ => []
  end.

Fixpoint acceptedSubmissionTimes (a : address) (s : state) (txs : list (env * call))
    : list uint256 :=
  match txs with
  | [] => []
  | tx :: txs' =>
      (if is_ok (dispatch (fst tx) (snd tx) s) then submissionTimeBy a tx else [])
        ++ acceptedSubmissionTimes a (transact s tx) txs'
  end.

(** The calls guarded by [onlyOwner]. *)
Definition ownerOnly (c : call) : bool :=
  match c with
  | TransferOwnership _ | AddProvider _ | RemoveProvider _ | SetCooldownSeconds _
  | Pause | Unpause | OpenBatch | CloseBatch => true
  | _ => false
  end.

(** The calls guarded by [onlyProvider]. *)
Definition providerOnly (c : call) : bool :=
  match c with
  | SubmitCollateral _ _ | SubmitDebt _ _ | CalculateSolvency _
  | RequestSolvencyDecryption _ => true
  | _ => false
  end.

(** The batch events of the log tell the batch state: every batch from 1 to
    the counter was opened once, in order, and every one of them but an open
    current batch was closed once, in order. *)
Definition batch_log_consistent (s : state) : Prop :=
  (batchOpen s = true -> 1 <= currentBatchId s) /\
  openedBatches (events s) = consecutive 1 (currentBatchId s) /\
  closedBatches (events s) =
    consecutive 1 (currentBatchId s - (if batchOpen s then 1 else 0)).

(** The request events of the log are the identifiers handed out so far,
    and each stored request names a batch that exists and the fingerprint of
    an initialised ciphertext. *)
Definition requests_consistent (s : state) : Prop :=
  requestedIds (events s) = consecutive 0 (counterRequest s) /\
  forall r, r < counterRequest s ->
    1 <= batchId (decryptionContexts s r) <= currentBatchId s /\
    exists h, isInitialized h = true /\
              stateHash (decryptionContexts s r) = _hashCiphertexts [toBytes32 h].

(** No slot of a batch that does not exist was ever written. *)
Definition beyond_untouched (s : state) : Prop :=
  forall b, b = 0 \/ currentBatchId s < b ->
    totalEncryptedCollateral s b = 0 /\
    totalEncryptedDebt s b = 0 /\
    isProtocolSolvent s b = 0 /\
    forall a, encryptedCollateralAmounts s b a = 0 /\ encryptedDebtAmounts s b a = 0.

End Participants.

(** ** The protocol builder of the web front end

    The page component keeps a list of protocols read from storage and a
    form for a new protocol whose module list is filled by drag and drop.
    Its handlers are embedded as functions on the form state.  A handler
    reads the state of the render it was created in and passes updater
    functions that run on the pending state; [handleDropIn] keeps the two
    apart, and [handleDrop] is the handler called on a rendered form with no
    update pending, where they coincide.  JavaScript numbers and the built-ins
    [Number.prototype.toString], [parseFloat], [btoa] and [atob] are kept
    abstract. *)

From Stdlib Require Strings.String.

Module Ui.

Import Stdlib.Strings.String.
#[local] Open Scope string_scope.
#[local] Open Scope nat_scope.

Section Page.

Variable number : Type.
Variable toString : number -> string.
Variable parseFloat : string -> number.
Variable btoa : string -> string.
(* [atob] throws on input that is not base64: [None] *)
Variable atob : string -> option string.

Record Protocol : Type := mkProtocol {
  id : string;
  name : string;
  type : string;
  encryptedTVL : string;
  encryptedAPY : string;
  timestamp : number;
  owner : string;
  status : string;
  modules : list string
}.

Definition FHEEncryptNumber (value : number) : string :=
  "FHE-" ++ btoa (toString value).

Definition FHEDecryptNumber (encryptedData : string) : option number :=
  if prefix "FHE-" encryptedData
  then option_map parseFloat
         (atob (substring 4 (String.length encryptedData - 4) encryptedData))
  else Some (parseFloat encryptedData).

Definition protocolTypes : list string :=
  ["Lending"; "DEX"; "Yield"; "Derivatives"; "Insurance"]%list.

Definition fheModules : list string :=
  ["FHE-Swap"; "FHE-Lend"; "FHE-Oracle"; "FHE-Stable"; "FHE-Vault"]%list.

(** [Array.prototype.includes] on strings. *)
Definition includes (l : list string) (m : string) : bool :=
  existsb (String.eqb m) l.

Definition liveCount (protocols : list Protocol) : nat :=
  List.length (filter (fun p => (status p =? "live")%string) protocols).

Definition draftCount (protocols : list Protocol) : nat :=
  List.length (filter (fun p => (status p =? "draft")%string) protocols).

Definition archivedCount (protocols : list Protocol) : nat :=
  List.length (filter (fun p => (status p =? "archived")%string) protocols).

(** The form of the create dialog ([newProtocol]) and the module being
    dragged. *)
Record NewProtocol : Type := mkNewProtocol {
  new_name : string;
  new_type : string;
  new_tvl : number;
  new_apy : number;
  new_modules : list string
}.

Record Form : Type := mkForm {
  newProtocol : NewProtocol;
  draggedModule : option string
}.

Definition with_modules (ms : list string) (p : NewProtocol) : NewProtocol :=
  mkNewProtocol (new_name p) (new_type p) (new_tvl p) (new_apy p) ms.

Definition handleDragStart (module : string) (f : Form) : Form :=
  mkForm (newProtocol f) (Some module).

(** [draggedModule && !newProtocol.modules.includes(draggedModule)]: [null]
    and the empty string are falsy.  This is the handler called on a rendered
    form with no update pending: the form it tests is the form it updates. *)
Definition handleDrop (f : Form) : Form :=
  let accepted :=
    match draggedModule f with
    | Some d => negb (d =? "")%string && negb (includes (new_modules (newProtocol f)) d)
    | None => false
    end in
  let p :=
    match draggedModule f with
    | Some d =>
        if accepted
        then with_modules (new_modules (newProtocol f) ++ [d])%list (newProtocol f)
        else newProtocol f
    | None => newProtocol f
    end in
  mkForm p None.

Definition removeModule (module : string) (f : Form) : Form :=
  mkForm
    (with_modules
       (filter (fun m => negb (m =? module)%string) (new_modules (newProtocol f)))
       (newProtocol f))
    (draggedModule f).

(** The palette of the dialog: the modules not yet in the form. *)
Definition palette (f : Form) : list string :=
  filter (fun m => negb (includes (new_modules (newProtocol f)) m)) fheModules.

(** The form of a freshly opened dialog; [zero] is the number 0. *)
Definition emptyForm (zero : number) : Form :=
  mkForm (mkNewProtocol "" "Lending" zero zero []%list) None.

Inductive gesture : Type :=
| DragStart (module : string)
| Drop
| Remove (module : string).

Definition perform (f : Form) (g : gesture) : Form :=
  match g with
  | DragStart m => handleDragStart m f
  | Drop => handleDrop f
  | Remove m => removeModule m f
  end.

(** Every drag starts on an entry of the palette, which only shows modules
    of [fheModules]. *)
Definition fromPalette (g : gesture) : Prop :=
  match g with
  | DragStart m => In m fheModules
  | _ => True
  end.

(** The drop handler created in the render of [rendered] and run while the
    pending state is [prev]: the test reads [draggedModule] and
    [newProtocol.modules] of the render, the updater
    [prev => ({...prev, modules: [...prev.modules, draggedModule]})] appends
    the render's dragged module to the pending list, and the drag is
    cleared. *)
Definition handleDropIn (rendered prev : Form) : Form :=
  let p :=
    match draggedModule rendered with
    | Some d =>
        if negb (d =? "")%string && negb (includes (new_modules (newProtocol rendered)) d)
        then with_modules (new_modules (newProtocol prev) ++ [d])%list (newProtocol prev)
        else newProtocol prev
    | None => newProtocol prev
    end in
  mkForm p None.

(** A gesture handled by the handlers of the render of [rendered] while the
    pending state is [prev]; [handleDragStart] and [removeModule] only use
    their argument and the pending state. *)
Definition performIn (rendered prev : Form) (g : gesture) : Form :=
  match g with
  | DragStart m => handleDragStart m prev
  | Drop => handleDropIn rendered prev
  | Remove m => removeModule m prev
  end.

(** The gestures handled between two renders, all by the handlers of the
    render of [f], and a session of such bursts, each followed by a render. *)
Definition burst (f : Form) (gs : list gesture) : Form :=
  fold_left (performIn f) gs f.

Definition session (f : Form) (bursts : list (list gesture)) : Form :=
  fold_left burst bursts f.

Definition isDrop (g : gesture) : bool :=
  match g with Drop => true | _ => false end.

Definition drops (gs : list gesture) : nat := List.length (filter isDrop gs).

(** What the form can hold: no module twice, only modules of the palette,
    and only such a module being dragged. *)
Definition tidy (f : Form) : Prop :=
  NoDup (new_modules (newProtocol f)) /\
  incl (new_modules (newProtocol f)) fheModules /\
  forall d, draggedModule f = Some d -> In d fheModules.

End Page.

End Ui.

(** A toy instance of the built-ins, on natural numbers: decimal printing
    and parsing, and a codec that prefixes a marker where [btoa] would
    encode in base64.  It is used to run the page functions on examples. *)

From Stdlib Require Numbers.DecimalString.

Module UiToy.

Import Stdlib.Strings.Ascii Stdlib.Strings.String.
#[local] Open Scope string_scope.

Definition toString (n : N) : string :=
  DecimalString.NilZero.string_of_uint (N.to_uint n).

Definition parseFloat (s : string) : N :=
  match DecimalString.NilZero.uint_of_string s with
  | Some u => N.of_uint u
  | None => 0%N
  end.

Definition btoa (s : string) : string := "=" ++ s.

Definition atob (s : string) : option string :=
  match s with
  | String "="%char r => Some r
  | _ => None
  end.

Definition protocol (st : string) : Ui.Protocol N :=
  Ui.mkProtocol N "1" "p" "Lending" "" "" 0%N "0x" st []%list.

End UiToy.

(** Two more states for the cooldown: the contract paused ten seconds after
    Alice's first submission, and a contract deployed and opened at time 0. *)
Definition paused_in_window : state :=
  run (vm := plainVM) deployed [tx_open; tx_collateral_100; (at_time alice 1510, Pause)].

Definition opened_at_zero : state :=
  run (vm := plainVM) (constructor (at_time alice 0)) [(at_time alice 0, OpenBatch)].

(** * Properties *)

(** ** Basic facts *)

Lemma upd_same {A : Type} (m : N -> A) k v : upd m k v k = v.
Proof. unfold upd. now rewrite N.eqb_refl. Qed.

Lemma upd_other {A : Type} (m : N -> A) k k' v : k' <> k -> upd m k v k' = m k'.
Proof. unfold upd. intros H. apply N.eqb_neq in H. now rewrite H. Qed.

Lemma checked_add_ok (a b c : uint256) :
  checked_add a b = Ok c <-> a + b <= MAX_UINT256 /\ c = a + b.
Proof.
  unfold checked_add. destruct (a + b <=? MAX_UINT256) eqn:E.
  - apply N.leb_le in E. split; [intros [= <-]; auto | intros [_ ->]; reflexivity].
  - apply N.leb_gt in E. split; [discriminate | intros [H _]; lia].
Qed.

Lemma checked_add_overflow (a b : uint256) :
  checked_add a b = Revert PanicOverflow <-> MAX_UINT256 < a + b.
Proof.
  unfold checked_add. destruct (a + b <=? MAX_UINT256) eqn:E.
  - apply N.leb_le in E. split; [discriminate | lia].
  - apply N.leb_gt in E. tauto.
Qed.

Lemma checked_add_error (a b : uint256) (err : error) :
  checked_add a b = Revert err -> err = PanicOverflow.
Proof. unfold checked_add. destruct (_ <=? _); congruence. Qed.

#[global] Opaque MAX_UINT256.

Section Properties.

Context {vm : FHEVM}.

(** Unfolds the modifiers of an external function. *)
Ltac modifiers :=
  unfold onlyOwner, onlyProvider, whenNotPaused, respectCooldown, _initIfNeeded, bind in *.

(** Splits on the first condition a result still depends on. *)
Ltac split_cond :=
  match goal with
  | |- context [if ?b then _ else _] => destruct b eqn:?
  | |- context [match checked_add ?a ?b with _ => _ end] => destruct (checked_add a b) eqn:?
  | H : context [if ?b then _ else _] |- _ => destruct b eqn:?
  | H : context [match checked_add ?a ?b with _ => _ end] |- _ =>
      destruct (checked_add a b) eqn:?
  end.

Ltac crunch := modifiers; repeat (split_cond; simpl in *; try discriminate; try congruence).

(** ** The fulfilment callback is open to every caller (C10) *)

(** C10.  [myCallback] carries no role, pause or cooldown modifier: for any
    two callers (and timestamps) the call with the same request id, cleartext
    payload and proof has the same outcome, and replacing the owner, the
    provider set, the pause flag, the cooldown window and both timestamp
    tables by arbitrary other ones changes neither the error it reverts with
    nor the post-state, apart from those replaced fields themselves. *)
Theorem myCallback_caller_independent :
  forall (e1 e2 : env) (a : access) (requestId : uint256) (cleartexts proof : bytes)
         (s : state),
    myCallback e1 requestId cleartexts proof s = myCallback e2 requestId cleartexts proof s /\
    myCallback e2 requestId cleartexts proof (with_access a s) =
      map_result (with_access a) (myCallback e1 requestId cleartexts proof s).
Proof.
  intros e1 e2 a requestId cleartexts proof s. split; [reflexivity|].
  unfold myCallback. simpl.
  destruct (processed (decryptionContexts s requestId)); [reflexivity|].
  destruct (negb _); [reflexivity|].
  destruct (negb _); [reflexivity|].
  destruct (negb _); reflexivity.
Qed.

(** Turns boolean tests in the context into propositions. *)
Ltac boolprops :=
  repeat match goal with
  | H : negb _ = true |- _ => apply negb_true_iff in H
  | H : negb _ = false |- _ => apply negb_false_iff in H
  | H : _ && _ = true |- _ => apply andb_prop in H; destruct H
  | H : _ && _ = false |- _ => apply andb_false_iff in H
  | H : (_ =? _) = true |- _ => apply N.eqb_eq in H
  | H : (_ =? _) = false |- _ => apply N.eqb_neq in H
  | H : (_ <? _) = true |- _ => apply N.ltb_lt in H
  | H : (_ <? _) = false |- _ => apply N.ltb_ge in H
  | H : (_ <=? _) = true |- _ => apply N.leb_le in H
  | H : (_ <=? _) = false |- _ => apply N.leb_gt in H
  | H : checked_add _ _ = Ok _ |- _ => apply checked_add_ok in H; destruct H; subst
  | H : checked_add _ _ = Revert PanicOverflow |- _ => apply checked_add_overflow in H
  | H : checked_add _ _ = Revert ?err |- _ =>
      pose proof (checked_add_error _ _ _ H); subst err
  end.

Ltac finish := intuition (try discriminate; try congruence; try lia).

Lemma isValidBatch_iff (b : uint256) (s : state) :
  _isValidBatch b s = true <-> 1 <= b <= currentBatchId s.
Proof.
  unfold _isValidBatch. rewrite andb_true_iff, N.ltb_lt, N.leb_le. lia.
Qed.



(** ** Batch validity of a submission (C4) *)


(** ** The pause flag (C9) *)

(** C9 (as amended).  While the pause flag is set, every call of
    [submitCollateral], [submitDebt], [openBatch], [closeBatch],
    [calculateSolvency] and [requestSolvencyDecryption] reverts and so leaves
    the storage as it was.  The role modifier runs before the pause modifier:
    a caller holding the role gets [PausedState], a caller without it gets
    [NotProvider] (or [NotOwner] for the two batch functions).  A successful
    [unpause] writes the pause flag and appends its event; every other field
    of the storage is the one of the pre-state. *)
Theorem paused_blocks_gated_calls :
  forall (e : env) (s : state),
    (paused s = true ->
     let provider_error := if isProvider s (msg_sender e) then PausedState else NotProvider in
     let owner_error := if msg_sender e =? owner s then PausedState else NotOwner in
     (forall b v, submitCollateral e b v s = Revert provider_error) /\
     (forall b v, submitDebt e b v s = Revert provider_error) /\
     openBatch e s = Revert owner_error /\
     closeBatch e s = Revert owner_error /\
     (forall b, calculateSolvency e b s = Revert provider_error) /\
     (forall b, requestSolvencyDecryption e b s = Revert provider_error) /\
     (forall c, pausable c = true -> transact s (e, c) = s)) /\
    (forall s', unpause e s = Ok s' ->
     s' = emit (Unpaused (msg_sender e)) (set_paused false s) /\
     paused s' = false /\
     totalEncryptedCollateral s' = totalEncryptedCollateral s /\
     totalEncryptedDebt s' = totalEncryptedDebt s /\
     encryptedCollateralAmounts s' = encryptedCollateralAmounts s /\
     encryptedDebtAmounts s' = encryptedDebtAmounts s /\
     isProtocolSolvent s' = isProtocolSolvent s /\
     currentBatchId s' = currentBatchId s /\
     batchOpen s' = batchOpen s /\
     owner s' = owner s /\
     isProvider s' = isProvider s /\
     cooldownSeconds s' = cooldownSeconds s /\
     lastSubmissionTime s' = lastSubmissionTime s /\
     lastDecryptionRequestTime s' = lastDecryptionRequestTime s /\
     decryptionContexts s' = decryptionContexts s /\
     counterRequest s' = counterRequest s).
Proof.
  intros e s. split.
  - intros P provider_error owner_error. subst provider_error owner_error.
    assert (SC : forall b v, submitCollateral e b v s =
                   Revert (if isProvider s (msg_sender e) then PausedState else NotProvider)).
    { intros. unfold submitCollateral. modifiers. rewrite P.
      destruct (isProvider s (msg_sender e)); reflexivity. }
    assert (SD : forall b v, submitDebt e b v s =
                   Revert (if isProvider s (msg_sender e) then PausedState else NotProvider)).
    { intros. unfold submitDebt. modifiers. rewrite P.
      destruct (isProvider s (msg_sender e)); reflexivity. }
    assert (OB : openBatch e s =
                   Revert (if msg_sender e =? owner s then PausedState else NotOwner)).
    { unfold openBatch. modifiers. rewrite P.
      destruct (msg_sender e =? owner s); reflexivity. }
    assert (CB : closeBatch e s =
                   Revert (if msg_sender e =? owner s then PausedState else NotOwner)).
    { unfold closeBatch. modifiers. rewrite P.
      destruct (msg_sender e =? owner s); reflexivity. }
    assert (CS : forall b, calculateSolvency e b s =
                   Revert (if isProvider s (msg_sender e) then PausedState else NotProvider)).
    { intros. unfold calculateSolvency. modifiers. rewrite P.
      destruct (isProvider s (msg_sender e)); reflexivity. }
    assert (RD : forall b, requestSolvencyDecryption e b s =
                   Revert (if isProvider s (msg_sender e) then PausedState else NotProvider)).
    { intros. unfold requestSolvencyDecryption. modifiers. rewrite P.
      destruct (isProvider s (msg_sender e)); reflexivity. }
    repeat (split; [assumption|]).
    intros c Hc. unfold transact. simpl.
    destruct c; simpl in Hc; try discriminate; simpl;
      rewrite ?SC, ?SD, ?OB, ?CB, ?CS, ?RD; reflexivity.
  - intros s' H. unfold unpause in H. modifiers.
    destruct (negb (msg_sender e =? owner s)); [discriminate|].
    injection H as <-. repeat split.
Qed.

(** ** The submission cooldown (C8) *)

Lemma submitCollateral_cooldown (e : env) (b : uint256) (v : euint32) (s : state) :
  isProvider s (msg_sender e) = true -> paused s = false ->
  lastSubmissionTime s (msg_sender e) + cooldownSeconds s <= MAX_UINT256 ->
  (submitCollateral e b v s = Revert CooldownActive <->
   block_timestamp e < lastSubmissionTime s (msg_sender e) + cooldownSeconds s).
Proof.
  intros P Q F. unfold submitCollateral. crunch; boolprops; finish.
Qed.

Lemma submitDebt_cooldown (e : env) (b : uint256) (v : euint32) (s : state) :
  isProvider s (msg_sender e) = true -> paused s = false ->
  lastSubmissionTime s (msg_sender e) + cooldownSeconds s <= MAX_UINT256 ->
  (submitDebt e b v s = Revert CooldownActive <->
   block_timestamp e < lastSubmissionTime s (msg_sender e) + cooldownSeconds s).
Proof.
  intros P Q F. unfold submitDebt. crunch; boolprops; finish.
Qed.

(** What an accepted collateral submission writes. *)
Lemma submitCollateral_ok (e : env) (b : uint256) (v : euint32) (s s' : state) :
  submitCollateral e b v s = Ok s' ->
  isProvider s (msg_sender e) = true /\ paused s = false /\
  cooldown_elapsed e (lastSubmissionTime s) s /\
  _isValidBatch b s = true /\ isInitialized v = true /\
  s' = emit (CollateralSubmitted (msg_sender e) b (toBytes32 v))
         (set_lastSubmissionTime (upd (lastSubmissionTime s) (msg_sender e) (block_timestamp e))
         (set_totalEncryptedCollateral
            (upd (totalEncryptedCollateral s) b (fhe_add (totalEncryptedCollateral s b) v))
         (set_encryptedCollateralAmounts
            (upd2 (encryptedCollateralAmounts s) b (msg_sender e) v) s))).
Proof.
  unfold submitCollateral, cooldown_elapsed. crunch; boolprops.
  intros [= <-]. repeat split; auto.
Qed.

Lemma submitDebt_ok (e : env) (b : uint256) (v : euint32) (s s' : state) :
  submitDebt e b v s = Ok s' ->
  isProvider s (msg_sender e) = true /\ paused s = false /\
  cooldown_elapsed e (lastSubmissionTime s) s /\
  _isValidBatch b s = true /\ isInitialized v = true /\
  s' = emit (DebtSubmitted (msg_sender e) b (toBytes32 v))
         (set_lastSubmissionTime (upd (lastSubmissionTime s) (msg_sender e) (block_timestamp e))
         (set_totalEncryptedDebt
            (upd (totalEncryptedDebt s) b (fhe_add (totalEncryptedDebt s b) v))
         (set_encryptedDebtAmounts
            (upd2 (encryptedDebtAmounts s) b (msg_sender e) v) s))).
Proof.
  unfold submitDebt, cooldown_elapsed. crunch; boolprops.
  intros [= <-]. repeat split; auto.
Qed.

(** The converse: when every guard passes the submission is accepted. *)
Lemma submitCollateral_accepts (e : env) (b : uint256) (v : euint32) (s : state) :
  isProvider s (msg_sender e) = true -> paused s = false ->
  cooldown_elapsed e (lastSubmissionTime s) s ->
  _isValidBatch b s = true -> isInitialized v = true ->
  exists s', submitCollateral e b v s = Ok s'.
Proof.
  intros P Q [C1 C2] B I. unfold submitCollateral.
  crunch; boolprops; eauto; try congruence; lia.
Qed.

(** ** Transactions and traces *)

Ltac split_in H :=
  match type of H with
  | context [if ?b then _ else _] => destruct b eqn:?
  | context [match checked_add ?a ?b with _ => _ end] => destruct (checked_add a b) eqn:?
  end.

(** Case analysis of a successful call: one goal per way a call can
    return, with the post-state written out. *)
Ltac invert_call H :=
  unfold transferOwnership, addProvider, removeProvider, setCooldownSeconds,
    pause, unpause, openBatch, closeBatch, submitCollateral, submitDebt,
    calculateSolvency, requestSolvencyDecryption, myCallback,
    _calculateSolvency, requestDecryption in H;
  unfold onlyOwner, onlyProvider, whenNotPaused, respectCooldown, _initIfNeeded,
    bind in H;
  repeat (split_in H; simpl in H; try discriminate H);
  injection H as <-; simpl.

Ltac invert_dispatch H :=
  match type of H with
  | dispatch _ ?c _ = Ok _ => is_var c; destruct c; simpl in H; invert_call H
  end.

Lemma transact_cases (s : state) (e : env) (c : call) :
  (exists s', dispatch e c s = Ok s' /\ transact s (e, c) = s') \/
  (exists err, dispatch e c s = Revert err /\ transact s (e, c) = s).
Proof.
  unfold transact. simpl. destruct (dispatch e c s) as [s'|err]; eauto.
Qed.

(** A property of states that every successful call preserves holds along
    every trace. *)
Lemma run_preserves (P : state -> Prop) :
  (forall e c s s', P s -> dispatch e c s = Ok s' -> P s') ->
  forall txs s, P s -> P (run s txs).
Proof.
  intros step txs. induction txs as [|[e c] txs IH]; intros s Hs; simpl; [assumption|].
  apply IH. destruct (transact_cases s e c) as [(s' & H & ->)|(err & _ & ->)]; eauto.
Qed.

Lemma reachable_ind (P : state -> Prop) :
  (forall e, P (constructor e)) ->
  (forall e c s s', P s -> dispatch e c s = Ok s' -> P s') ->
  forall s, reachable s -> P s.
Proof.
  intros base step s (deployer & txs & ->). apply run_preserves; auto.
Qed.

(** The recorded submission time along a trace. *)
Lemma dispatch_submission_time (e : env) (c : call) (s s' : state) (a : address) :
  dispatch e c s = Ok s' ->
  lastSubmissionTime s' a = last (submissionTimeBy a (e, c)) (lastSubmissionTime s a).
Proof.
  intros H. unfold submissionTimeBy. invert_dispatch H; auto;
    unfold upd; rewrite (N.eqb_sym (msg_sender e) a);
    destruct (a =? msg_sender e); reflexivity.
Qed.

Lemma run_submission_time (txs : list (env * call)) (s : state) (a : address) :
  lastSubmissionTime (run s txs) a =
    last (acceptedSubmissionTimes a s txs) (lastSubmissionTime s a).
Proof.
  revert s. induction txs as [|[e c] txs IH]; intros s; simpl; [reflexivity|].
  rewrite IH.
  assert (A : forall (l1 l2 : list uint256) d, last (l1 ++ l2) d = last l2 (last l1 d)).
  { intros l1 l2 d. revert l1. induction l2 as [|x l2 IH2] using rev_ind; intros l1.
    - now rewrite app_nil_r.
    - now rewrite app_assoc, !last_last. }
  rewrite A.
  destruct (transact_cases s e c) as [(s' & H & ->)|(err & H & ->)]; rewrite H; simpl.
  - now rewrite (dispatch_submission_time e c s s' a H).
  - reflexivity.
Qed.

(** C8 (as amended).  For a provider calling while the contract is not
    paused, and as long as [lastSubmissionTime + cooldownSeconds] fits in 256
    bits, a submission at time [now] reverts with [CooldownActive] exactly
    when [now < lastSubmissionTime + cooldownSeconds]; an accepted submission
    sets the caller's [lastSubmissionTime] to [now]; [setCooldownSeconds]
    replaces the window that the very next check reads and leaves the
    recorded timestamps alone.  Along every trace from the constructor the
    recorded timestamp of an address is the time of its last accepted
    submission, and 0 when it never submitted; an accepted submission always
    comes at [lastSubmissionTime + cooldownSeconds] or later, so with a
    window of 60 the first submission of an address is accepted only at a
    time of 60 or later.  With a window of 60, a first submission at such a
    time [t] is accepted, a second one at [t + 30] reverts with
    [CooldownActive], and a second one at [t + 61] is accepted. *)
Theorem submission_cooldown :
  (forall (e : env) (b : uint256) (v : euint32) (s : state),
     isProvider s (msg_sender e) = true -> paused s = false ->
     lastSubmissionTime s (msg_sender e) + cooldownSeconds s <= MAX_UINT256 ->
     (submitCollateral e b v s = Revert CooldownActive <->
        block_timestamp e < lastSubmissionTime s (msg_sender e) + cooldownSeconds s) /\
     (submitDebt e b v s = Revert CooldownActive <->
        block_timestamp e < lastSubmissionTime s (msg_sender e) + cooldownSeconds s) /\
     (forall s', submitCollateral e b v s = Ok s' \/ submitDebt e b v s = Ok s' ->
        lastSubmissionTime s' (msg_sender e) = block_timestamp e)) /\
  (forall (e : env) (n : uint256) (s s' : state),
     setCooldownSeconds e n s = Ok s' ->
     cooldownSeconds s' = n /\ lastSubmissionTime s' = lastSubmissionTime s /\
     isProvider s' = isProvider s /\ paused s' = paused s) /\
  (forall (who : address) (t b : uint256) (v : euint32) (s : state),
     isProvider s who = true -> paused s = false -> cooldownSeconds s = 60 ->
     lastSubmissionTime s who + 60 <= t -> t + 61 <= MAX_UINT256 ->
     _isValidBatch b s = true -> isInitialized v = true ->
     exists s1,
       submitCollateral (mkEnv who t) b v s = Ok s1 /\
       submitCollateral (mkEnv who (t + 30)) b v s1 = Revert CooldownActive /\
       is_ok (submitCollateral (mkEnv who (t + 61)) b v s1) = true) /\
  (forall (deployer : env) (txs : list (env * call)) (a : address),
     lastSubmissionTime (run (constructor deployer) txs) a =
       last (acceptedSubmissionTimes a (constructor deployer) txs) 0) /\
  (forall (e : env) (b : uint256) (v : euint32) (s : state),
     is_ok (submitCollateral e b v s) = true \/ is_ok (submitDebt e b v s) = true ->
     lastSubmissionTime s (msg_sender e) + cooldownSeconds s <= block_timestamp e) /\
  (forall (deployer : env) (txs : list (env * call)) (e : env) (b : uint256)
          (v : euint32),
     let s := run (constructor deployer) txs in
     acceptedSubmissionTimes (msg_sender e) (constructor deployer) txs = [] ->
     cooldownSeconds s = 60 ->
     lastSubmissionTime s (msg_sender e) = 0 /\
     (is_ok (submitCollateral e b v s) = true \/ is_ok (submitDebt e b v s) = true ->
      60 <= block_timestamp e)).
Proof.
  assert (accepted_late : forall (e : env) (b : uint256) (v : euint32) (s : state),
            is_ok (submitCollateral e b v s) = true \/ is_ok (submitDebt e b v s) = true ->
            lastSubmissionTime s (msg_sender e) + cooldownSeconds s <= block_timestamp e).
  { intros e b v s [H|H].
    - destruct (submitCollateral e b v s) as [s'|] eqn:E; [|discriminate].
      apply submitCollateral_ok in E. destruct E as (_ & _ & [_ C] & _). exact C.
    - destruct (submitDebt e b v s) as [s'|] eqn:E; [|discriminate].
      apply submitDebt_ok in E. destruct E as (_ & _ & [_ C] & _). exact C. }
  split; [|split; [|split; [|split; [|split]]]];
    [ | | | intros deployer txs a; apply run_submission_time | exact accepted_late
    | intros deployer txs e b v s N C;
      assert (Z : lastSubmissionTime s (msg_sender e) = 0)
        by (subst s; rewrite run_submission_time, N; reflexivity);
      split; [exact Z|]; intros A; apply accepted_late in A; rewrite Z, C in A; exact A ].
  - intros e b v s P Q F.
    split; [apply submitCollateral_cooldown; assumption|].
    split; [apply submitDebt_cooldown; assumption|].
    intros s' [H|H].
    + apply submitCollateral_ok in H. destruct H as (_ & _ & _ & _ & _ & ->).
      simpl. apply upd_same.
    + apply submitDebt_ok in H. destruct H as (_ & _ & _ & _ & _ & ->).
      simpl. apply upd_same.
  - intros e n s s' H. unfold setCooldownSeconds in H. crunch.
    injection H as <-. simpl. auto.
  - intros who t b v s P Q C L M B I.
    destruct (submitCollateral_accepts (mkEnv who t) b v s) as [s1 H1]; simpl; auto.
    { unfold cooldown_elapsed. simpl. rewrite C. lia. }
    exists s1. split; [assumption|].
    apply submitCollateral_ok in H1 as (_ & _ & _ & _ & _ & E1). simpl in E1.
    assert (L1 : lastSubmissionTime s1 who = t) by (subst s1; simpl; apply upd_same).
    assert (P1 : isProvider s1 who = true) by (subst s1; simpl; assumption).
    assert (Q1 : paused s1 = false) by (subst s1; simpl; assumption).
    assert (C1 : cooldownSeconds s1 = 60) by (subst s1; simpl; assumption).
    assert (B1 : _isValidBatch b s1 = true) by (subst s1; assumption).
    split.
    + apply submitCollateral_cooldown; simpl; rewrite ?L1, ?C1; auto; lia.
    + unfold submitCollateral. modifiers. simpl. rewrite P1, Q1, L1, C1, B1, I. simpl.
      unfold checked_add. destruct (t + 60 <=? MAX_UINT256) eqn:E; boolprops; [|lia].
      destruct (t + 61 <? t + 60) eqn:E'; boolprops; [lia|]. reflexivity.
Qed.

(** ** Replay protection (C1) *)

(** A request that the channel has handed out keeps its batch and its
    fingerprint, and its processed flag never goes back to false. *)
Lemma dispatch_keeps_request (e : env) (c : call) (s s' : state) (r : uint256) :
  dispatch e c s = Ok s' -> r < counterRequest s ->
  r < counterRequest s' /\
  batchId (decryptionContexts s' r) = batchId (decryptionContexts s r) /\
  stateHash (decryptionContexts s' r) = stateHash (decryptionContexts s r) /\
  (processed (decryptionContexts s r) = true -> processed (decryptionContexts s' r) = true).
Proof.
  intros H R. invert_dispatch H; boolprops; auto.
  - (* requestSolvencyDecryption writes at the counter, which is above r *)
    rewrite upd_other by lia. repeat split; auto; lia.
  - (* myCallback rewrites the context it finalises, keeping batch and hash *)
    unfold upd. destruct (r =? requestId) eqn:E; boolprops; subst; simpl; auto.
Qed.

Lemma run_keeps_request (txs : list (env * call)) (s : state) (r : uint256) :
  r < counterRequest s ->
  r < counterRequest (run s txs) /\
  batchId (decryptionContexts (run s txs) r) = batchId (decryptionContexts s r) /\
  stateHash (decryptionContexts (run s txs) r) = stateHash (decryptionContexts s r) /\
  (processed (decryptionContexts s r) = true ->
   processed (decryptionContexts (run s txs) r) = true).
Proof.
  revert s. induction txs as [|[e c] txs IH]; intros s R; simpl; [auto|].
  destruct (transact_cases s e c) as [(s' & H & ->)|(err & _ & ->)]; [|auto].
  destruct (dispatch_keeps_request _ _ _ _ r H R) as (R' & B & F & P).
  destruct (IH s' R') as (R'' & B' & F' & P').
  repeat split; auto; congruence.
Qed.

Lemma myCallback_replay (e : env) (r : uint256) (cleartexts proof : bytes) (s : state) :
  processed (decryptionContexts s r) = true ->
  myCallback e r cleartexts proof s = Revert ReplayAttempt.
Proof. intros P. unfold myCallback. now rewrite P. Qed.

Lemma myCallback_ok (e : env) (r : uint256) (cleartexts proof : bytes) (s s' : state) :
  myCallback e r cleartexts proof s = Ok s' ->
  processed (decryptionContexts s r) = false /\
  _hashCiphertexts [toBytes32 (isProtocolSolvent s (batchId (decryptionContexts s r)))] =
    stateHash (decryptionContexts s r) /\
  checkSignatures r cleartexts proof = true /\
  length cleartexts = 1%nat /\
  processed (decryptionContexts s' r) = true /\
  events s' = events s ++
    [DecryptionCompleted r (batchId (decryptionContexts s r))
       (negb (Byte.eqb (nth 0 cleartexts x00) x00))].
Proof.
  unfold myCallback. crunch; boolprops. intros [= <-]. simpl.
  rewrite !upd_same. simpl. repeat split; auto. lia.
Qed.

Lemma completions_app (r : uint256) (log : list event) (ev : event) :
  completions r (log ++ [ev]) = (completions r log + completionOf r ev)%nat.
Proof.
  unfold completions. induction log as [|x log IH]; simpl; [lia|]. rewrite IH. lia.
Qed.

Lemma oracle_consistent_constructor (e : env) : oracle_consistent (constructor e).
Proof. intros r. simpl. auto. Qed.

Lemma oracle_consistent_step (e : env) (c : call) (s s' : state) :
  hash_nonzero vm -> oracle_consistent s -> dispatch e c s = Ok s' -> oracle_consistent s'.
Proof.
  intros NZ I H.
  invert_dispatch H; boolprops; intros r; simpl; rewrite ?completions_app; simpl;
    destruct (I r) as [U C]; try (split; [assumption | rewrite C; lia]).
  - (* requestSolvencyDecryption *)
    unfold upd. destruct (r =? counterRequest s) eqn:E; boolprops.
    + subst r. split; [lia|]. rewrite C, U by lia. reflexivity.
    + split; [intros; apply U; lia | rewrite C; lia].
  - (* myCallback: only a request that was handed out can be finalised *)
    assert (R : requestId < counterRequest s).
    { destruct (N.lt_ge_cases requestId (counterRequest s)) as [L|G]; [assumption|].
      destruct (I requestId) as [U' _]. rewrite U' in * by assumption. simpl in *.
      exfalso. eapply NZ. unfold _hashCiphertexts in *. eassumption. }
    unfold upd. destruct (r =? requestId) eqn:E; boolprops.
    + subst r. rewrite N.eqb_refl. split; [lia|]. rewrite C.
      match goal with P : processed _ = false |- _ => rewrite P end. reflexivity.
    + apply N.eqb_neq in E as E'. rewrite N.eqb_sym in E'. rewrite E'.
      split; [assumption | rewrite C; lia].
Qed.

Lemma oracle_consistent_reachable (s : state) :
  hash_nonzero vm -> reachable s -> oracle_consistent s.
Proof.
  intros NZ. apply reachable_ind.
  - apply oracle_consistent_constructor.
  - intros e c s0 s1 I H. eapply oracle_consistent_step; eauto.
Qed.

(** C1.  Once [myCallback] has succeeded for a request identifier that the
    channel handed out, the request is marked processed, it stays so along
    every later trace of transactions, and every later [myCallback] with
    that identifier reverts with [ReplayAttempt], whoever calls it and
    whatever cleartexts and proof it brings.  When the fingerprint function
    never yields the zero word, only identifiers that were handed out can be
    finalised at all, and in every reachable state the log holds exactly one
    completion event for a processed request and none for any other: the
    flag goes from false to true once. *)
Theorem replay_protection :
  (forall (e : env) (r : uint256) (cleartexts proof : bytes) (s s1 : state),
     r < counterRequest s ->
     myCallback e r cleartexts proof s = Ok s1 ->
     processed (decryptionContexts s r) = false /\
     processed (decryptionContexts s1 r) = true /\
     forall (txs : list (env * call)) (e' : env) (cleartexts' proof' : bytes),
       processed (decryptionContexts (run s1 txs) r) = true /\
       myCallback e' r cleartexts' proof' (run s1 txs) = Revert ReplayAttempt) /\
  (hash_nonzero vm ->
   forall s : state, reachable s ->
     (forall (e : env) (r : uint256) (cleartexts proof : bytes) (s1 : state),
        myCallback e r cleartexts proof s = Ok s1 -> r < counterRequest s) /\
     (forall r : uint256,
        completions r (events s) =
          if processed (decryptionContexts s r) then 1%nat else 0%nat)).
Proof.
  split.
  - intros e r cleartexts proof s s1 R H.
    pose proof (dispatch_keeps_request e (MyCallback r cleartexts proof) s s1 r H R)
      as (R1 & _).
    apply myCallback_ok in H. destruct H as (P0 & _ & _ & _ & P1 & _).
    repeat split; auto.
    + apply run_keeps_request; assumption.
    + apply myCallback_replay. apply run_keeps_request; assumption.
  - intros NZ s Hs. pose proof (oracle_consistent_reachable s NZ Hs) as I. split.
    + intros e r cleartexts proof s1 H.
      destruct (N.lt_ge_cases r (counterRequest s)) as [L|G]; [assumption|].
      apply myCallback_ok in H. destruct H as (_ & F & _).
      destruct (I r) as [U _]. rewrite U in F by assumption. simpl in F.
      exfalso. eapply NZ. unfold _hashCiphertexts in F. eassumption.
    + intros r. apply I.
Qed.

(** ** Binding a fulfilment to the ciphertext of the request (C2) *)

(** What an accepted decryption request stores. *)
Lemma requestSolvencyDecryption_ok (e : env) (b : uint256) (s s' : state) :
  requestSolvencyDecryption e b s = Ok s' ->
  decryptionContexts s' (counterRequest s) =
    mkContext b (_hashCiphertexts [toBytes32 (isProtocolSolvent s b)]) false /\
  counterRequest s' = counterRequest s + 1 /\
  isProtocolSolvent s' = isProtocolSolvent s.
Proof.
  intros H. invert_call H; boolprops. rewrite upd_same. auto.
Qed.

(** C2.  Take a request for batch [b] accepted in state [s0]; the channel
    gives it the identifier [counterRequest s0] and the contract stores the
    fingerprint of the solvency ciphertext of [b] as it is in [s0].  After any
    trace of later transactions, if the request is still unprocessed and the
    solvency ciphertext of [b] is no longer the one of [s0], then [myCallback]
    for that identifier reverts with [StateMismatch] for every caller,
    cleartext payload and proof (so also for a proof that the signature check
    accepts), and the storage, the processed flag included, stays as it was.
    The fingerprint function is taken to be collision free. *)
Theorem stale_fulfilment_rejected :
  hash_injective vm ->
  forall (e : env) (b : uint256) (s0 s1 : state) (txs : list (env * call))
         (e' : env) (cleartexts proof : bytes),
    requestSolvencyDecryption e b s0 = Ok s1 ->
    processed (decryptionContexts (run s1 txs) (counterRequest s0)) = false ->
    isProtocolSolvent (run s1 txs) b <> isProtocolSolvent s0 b ->
    myCallback e' (counterRequest s0) cleartexts proof (run s1 txs) = Revert StateMismatch /\
    transact (run s1 txs) (e', MyCallback (counterRequest s0) cleartexts proof) = run s1 txs.
Proof.
  intros INJ e b s0 s1 txs e' cleartexts proof H P D.
  apply requestSolvencyDecryption_ok in H. destruct H as (C & R & _).
  assert (L : counterRequest s0 < counterRequest s1) by lia.
  destruct (run_keeps_request txs s1 _ L) as (_ & B & F & _).
  rewrite C in B, F. simpl in B, F.
  assert (M : myCallback e' (counterRequest s0) cleartexts proof (run s1 txs)
              = Revert StateMismatch).
  { unfold myCallback. rewrite P, B, F.
    destruct (_hashCiphertexts [toBytes32 (isProtocolSolvent (run s1 txs) b)] =?
              _hashCiphertexts [toBytes32 (isProtocolSolvent s0 b)]) eqn:E; [|reflexivity].
    boolprops. apply INJ in E. unfold toBytes32 in E. contradiction. }
  split; [assumption|]. unfold transact. simpl. now rewrite M.
Qed.

(** ** The owner and the provider set (C3) *)

(** C3 (as amended).  The constructor makes the deployer both owner and
    provider.  [removeProvider] applied to the current owner never changes
    the storage, whoever calls it.  Every call other than [transferOwnership]
    keeps the owner a provider if it was one.  [transferOwnership] replaces
    the owner and leaves the provider set as it is, so afterwards the owner
    is a provider exactly when the new owner already was one. *)
Theorem owner_provider_status :
  (forall e : env, isProvider (constructor e) (owner (constructor e)) = true) /\
  (forall (e : env) (s : state), transact s (e, RemoveProvider (owner s)) = s) /\
  (forall (e : env) (c : call) (s s' : state),
     (forall newOwner, c <> TransferOwnership newOwner) ->
     isProvider s (owner s) = true ->
     dispatch e c s = Ok s' ->
     isProvider s' (owner s') = true) /\
  (forall (e : env) (newOwner : address) (s s' : state),
     transferOwnership e newOwner s = Ok s' ->
     owner s' = newOwner /\ isProvider s' = isProvider s).
Proof.
  repeat split.
  - intros e. simpl. apply upd_same.
  - intros e s. unfold transact. simpl. unfold removeProvider. modifiers.
    rewrite N.eqb_refl, andb_false_r. simpl.
    destruct (negb (msg_sender e =? owner s)); reflexivity.
  - intros e c s s' NT P H. invert_dispatch H; boolprops; auto.
    + (* transferOwnership is excluded *)
      exfalso. eapply NT. reflexivity.
    + (* addProvider *)
      unfold upd. destruct (owner s =? provider); auto.
    + (* removeProvider of somebody else *)
      rewrite upd_other; auto.
  - unfold transferOwnership in H. crunch. injection H as <-. reflexivity.
  - unfold transferOwnership in H. crunch. injection H as <-. reflexivity.
Qed.

(** ** Running totals (C5) *)

Lemma collateralSubmissions_app (b : uint256) (log : list event) (ev : event) :
  collateralSubmissions b (log ++ [ev]) = collateralSubmissions b log ++ collateralOf b ev.
Proof.
  unfold collateralSubmissions. rewrite flat_map_app. simpl. now rewrite app_nil_r.
Qed.

Lemma debtSubmissions_app (b : uint256) (log : list event) (ev : event) :
  debtSubmissions b (log ++ [ev]) = debtSubmissions b log ++ debtOf b ev.
Proof.
  unfold debtSubmissions. rewrite flat_map_app. simpl. now rewrite app_nil_r.
Qed.

Lemma homomorphicSum_snoc (l : list euint32) (v : euint32) :
  homomorphicSum (l ++ [v]) = fhe_add (homomorphicSum l) v.
Proof. unfold homomorphicSum. now rewrite fold_left_app. Qed.

(** A successful call logs exactly the submission it carries. *)
Lemma dispatch_logs_submission (e : env) (c : call) (s s' : state) (b : uint256) :
  dispatch e c s = Ok s' ->
  collateralSubmissions b (events s') = collateralSubmissions b (events s) ++ collateralIn b c /\
  debtSubmissions b (events s') = debtSubmissions b (events s) ++ debtIn b c.
Proof.
  intros H. invert_dispatch H;
    rewrite ?collateralSubmissions_app, ?debtSubmissions_app; simpl;
    rewrite ?app_nil_r; auto.
Qed.

Lemma run_logs_submissions (b : uint256) (txs : list (env * call)) (s : state) :
  collateralSubmissions b (events (run s txs)) =
    collateralSubmissions b (events s) ++ acceptedCollateral b s txs /\
  debtSubmissions b (events (run s txs)) =
    debtSubmissions b (events s) ++ acceptedDebt b s txs.
Proof.
  revert s. induction txs as [|[e c] txs IH]; intros s; simpl.
  - now rewrite !app_nil_r.
  - destruct (IH (transact s (e, c))) as [IC ID]. rewrite IC, ID.
    destruct (transact_cases s e c) as [(s' & H & ->)|(err & H & ->)]; rewrite H; simpl.
    + destruct (dispatch_logs_submission e c s s' b H) as [-> ->].
      now rewrite <- !app_assoc.
    + auto.
Qed.

Lemma totals_are_sums_constructor (e : env) : totals_are_sums (constructor e).
Proof. intros b. simpl. split; [lia | auto]. Qed.

Lemma totals_are_sums_step (e : env) (c : call) (s s' : state) :
  totals_are_sums s -> dispatch e c s = Ok s' -> totals_are_sums s'.
Proof.
  intros I H.
  invert_dispatch H; boolprops; intros b; simpl;
    rewrite ?collateralSubmissions_app, ?debtSubmissions_app; simpl;
    rewrite ?app_nil_r; destruct (I b) as [T U]; try (split; assumption).
  - (* openBatch: the new batch starts from the encrypted zero *)
    unfold upd. destruct (b =? currentBatchId s + 1) eqn:E; boolprops.
    + subst b. split; [|lia]. intros _.
      destruct (I (currentBatchId s + 1)) as [_ [-> ->]]; [lia|]. auto.
    + split; [intros; apply T; lia | intros; apply U; lia].
  - (* submitCollateral *)
    match goal with V : _isValidBatch _ _ = true |- _ => apply isValidBatch_iff in V end.
    unfold upd. destruct (batchId0 =? b) eqn:E; boolprops.
    + subst b. rewrite N.eqb_refl. split; [|lia]. intros R. destruct (T R) as [-> ->].
      now rewrite homomorphicSum_snoc.
    + apply N.eqb_neq in E as E'. rewrite N.eqb_sym in E'. rewrite E', ?app_nil_r.
      split; assumption.
  - (* submitDebt *)
    match goal with V : _isValidBatch _ _ = true |- _ => apply isValidBatch_iff in V end.
    unfold upd. destruct (batchId0 =? b) eqn:E; boolprops.
    + subst b. rewrite N.eqb_refl. split; [|lia]. intros R. destruct (T R) as [-> ->].
      now rewrite homomorphicSum_snoc.
    + apply N.eqb_neq in E as E'. rewrite N.eqb_sym in E'. rewrite E', ?app_nil_r.
      split; assumption.
Qed.

Lemma decrypt32_fold_add (l : list euint32) (a : euint32) :
  add_law vm -> decrypt32 a < 2 ^ 32 ->
  decrypt32 (fold_left fhe_add l a) =
    (decrypt32 a + fold_right (fun h acc => decrypt32 h + acc) 0 l) mod 2 ^ 32.
Proof.
  intros [Z A]. revert a. induction l as [|x l IH]; intros a B; simpl.
  - rewrite N.add_0_r. symmetry. apply N.mod_small. assumption.
  - rewrite IH.
    + rewrite A, N.Div0.add_mod_idemp_l. f_equal. lia.
    + rewrite A. apply N.mod_lt. discriminate.
Qed.

Lemma decrypt32_homomorphicSum (l : list euint32) :
  add_law vm -> decrypt32 (homomorphicSum l) = plainSum l.
Proof.
  intros L. unfold homomorphicSum, plainSum. rewrite decrypt32_fold_add; auto.
  - destruct L as [Z _]. now rewrite Z.
  - destruct L as [Z _]. rewrite Z. apply N.mod_lt. discriminate.
Qed.

Lemma plainSum_perm (l l' : list euint32) :
  Permutation l l' -> plainSum l = plainSum l'.
Proof.
  intros P. unfold plainSum. f_equal.
  induction P; simpl; lia.
Qed.

Lemma totals_are_sums_reachable (s : state) : reachable s -> totals_are_sums s.
Proof.
  apply reachable_ind.
  - apply totals_are_sums_constructor.
  - intros e c s0 s1 I H. eapply totals_are_sums_step; eauto.
Qed.

(** C5.  Run any trace of transactions from the constructor.  For every
    batch [b] that exists in the final state, the running collateral total
    of [b] is the homomorphic sum, from the encrypted zero that [openBatch]
    wrote, of the collateral submissions into [b] that were accepted along
    the trace, each one counted, in trace order (a second submission by the
    same address is one more summand); the same holds for the debt total.
    By the homomorphic law of addition the total therefore decrypts to the
    32-bit sum of the submitted plaintexts, and summing the same submissions
    in any other order decrypts to the same value. *)
Theorem running_totals_are_homomorphic_sums :
  add_law vm ->
  forall (deployer : env) (txs : list (env * call)) (b : uint256),
    let s := run (constructor deployer) txs in
    let cs := acceptedCollateral b (constructor deployer) txs in
    let ds := acceptedDebt b (constructor deployer) txs in
    1 <= b <= currentBatchId s ->
    totalEncryptedCollateral s b = homomorphicSum cs /\
    totalEncryptedDebt s b = homomorphicSum ds /\
    decrypt32 (totalEncryptedCollateral s b) = plainSum cs /\
    decrypt32 (totalEncryptedDebt s b) = plainSum ds /\
    (forall cs', Permutation cs cs' ->
       decrypt32 (homomorphicSum cs') = decrypt32 (totalEncryptedCollateral s b)) /\
    (forall ds', Permutation ds ds' ->
       decrypt32 (homomorphicSum ds') = decrypt32 (totalEncryptedDebt s b)).
Proof.
  intros L deployer txs b s cs ds R.
  assert (I : totals_are_sums s).
  { apply totals_are_sums_reachable. exists deployer, txs. reflexivity. }
  destruct (I b) as [T _]. destruct (T R) as [TC TD].
  destruct (run_logs_submissions b txs (constructor deployer)) as [EC ED].
  simpl in EC, ED. fold s cs in EC. fold s ds in ED. rewrite EC in TC. rewrite ED in TD.
  assert (PC : decrypt32 (totalEncryptedCollateral s b) = plainSum cs)
    by (rewrite TC; apply decrypt32_homomorphicSum; assumption).
  assert (PD : decrypt32 (totalEncryptedDebt s b) = plainSum ds)
    by (rewrite TD; apply decrypt32_homomorphicSum; assumption).
  repeat split; auto.
  - intros cs' P. rewrite PC, decrypt32_homomorphicSum by assumption.
    symmetry. apply plainSum_perm. assumption.
  - intros ds' P. rewrite PD, decrypt32_homomorphicSum by assumption.
    symmetry. apply plainSum_perm. assumption.
Qed.

(** ** The solvency flag (C6) *)

Lemma calculateSolvency_inner_ok (b : uint256) (s s' : state) :
  _calculateSolvency b s = Ok s' ->
  s' = emit (SolvencyCalculated b
               (toBytes32 (fhe_ge (totalEncryptedCollateral s b) (totalEncryptedDebt s b))))
         (set_isProtocolSolvent
            (upd (isProtocolSolvent s) b
               (fhe_ge (totalEncryptedCollateral s b) (totalEncryptedDebt s b))) s).
Proof. intros H. invert_call H. reflexivity. Qed.

(** C6.  A successful solvency computation for batch [b], whether through
    [calculateSolvency] or as part of [closeBatch] (for the current batch),
    overwrites the flag of [b] with the encrypted greater-or-equal comparison
    of the collateral total against the debt total as they are in the
    pre-state, and touches neither the totals nor the flag of any other
    batch.  By the law of the comparison the new flag decrypts to
    [collateral >= debt]: to true for totals 100 and 80, to false for 50 and
    80.  The flag is a snapshot: a later accepted submission changes a total
    and leaves every flag as it is. *)
Theorem solvency_flag_is_snapshot :
  ge_law vm ->
  forall (e : env) (b : uint256) (s s' : state),
    calculateSolvency e b s = Ok s' \/ (closeBatch e s = Ok s' /\ b = currentBatchId s) ->
    let C := totalEncryptedCollateral s b in
    let D := totalEncryptedDebt s b in
    isProtocolSolvent s' b = fhe_ge C D /\
    decryptBool (isProtocolSolvent s' b) = (decrypt32 D <=? decrypt32 C) /\
    (decrypt32 C = 100 -> decrypt32 D = 80 -> decryptBool (isProtocolSolvent s' b) = true) /\
    (decrypt32 C = 50 -> decrypt32 D = 80 -> decryptBool (isProtocolSolvent s' b) = false) /\
    totalEncryptedCollateral s' = totalEncryptedCollateral s /\
    totalEncryptedDebt s' = totalEncryptedDebt s /\
    (forall b', b' <> b -> isProtocolSolvent s' b' = isProtocolSolvent s b') /\
    (forall (e' : env) (b' : uint256) (v : euint32) (s'' : state),
       submitCollateral e' b' v s' = Ok s'' \/ submitDebt e' b' v s' = Ok s'' ->
       isProtocolSolvent s'' = isProtocolSolvent s').
Proof.
  intros G e b s s' H C D.
  assert (F : isProtocolSolvent s' b = fhe_ge C D /\
              totalEncryptedCollateral s' = totalEncryptedCollateral s /\
              totalEncryptedDebt s' = totalEncryptedDebt s /\
              (forall b', b' <> b -> isProtocolSolvent s' b' = isProtocolSolvent s b')).
  { destruct H as [H|[H ->]]; invert_call H; rewrite upd_same;
      repeat split; auto; intros; apply upd_other; assumption. }
  destruct F as (F & TC & TD & O).
  assert (P : decryptBool (isProtocolSolvent s' b) = (decrypt32 D <=? decrypt32 C))
    by (rewrite F; apply G).
  repeat split; auto.
  - intros HC HD. rewrite P, HC, HD. reflexivity.
  - intros HC HD. rewrite P, HC, HD. reflexivity.
  - intros e' b' v s'' [S|S].
    + apply submitCollateral_ok in S. destruct S as (_ & _ & _ & _ & _ & ->). reflexivity.
    + apply submitDebt_ok in S. destruct S as (_ & _ & _ & _ & _ & ->). reflexivity.
Qed.

(** ** The batch lifecycle (C7) *)

Lemma batches_well_formed_constructor (e : env) : batches_well_formed (constructor e).
Proof. split; simpl; [discriminate | lia]. Qed.

Lemma batches_well_formed_step (e : env) (c : call) (s s' : state) :
  init_law vm -> batches_well_formed s -> dispatch e c s = Ok s' -> batches_well_formed s'.
Proof.
  intros (IU & IB & IA & IG) [O W] H.
  invert_dispatch H; boolprops; (split; [simpl; try assumption; try discriminate; try lia|]);
    simpl; try assumption; intros b R.
  - (* openBatch *)
    unfold upd. destruct (b =? currentBatchId s + 1) eqn:E; boolprops; auto.
    apply W. lia.
  - (* closeBatch *)
    unfold upd. destruct (W b R) as (WC & WD & WS).
    destruct (b =? currentBatchId s); auto.
  - (* submitCollateral *)
    unfold upd. destruct (W b R) as (WC & WD & WS).
    destruct (b =? batchId0); auto.
  - (* submitDebt *)
    unfold upd. destruct (W b R) as (WC & WD & WS).
    destruct (b =? batchId0); auto.
  - (* calculateSolvency *)
    unfold upd. destruct (W b R) as (WC & WD & WS).
    destruct (b =? batchId0); auto.
Qed.

Lemma batches_well_formed_reachable (s : state) :
  init_law vm -> reachable s -> batches_well_formed s.
Proof.
  intros L. apply reachable_ind.
  - apply batches_well_formed_constructor.
  - intros e c s0 s1 I H. eapply batches_well_formed_step; eauto.
Qed.

Lemma dispatch_counter (e : env) (c : call) (s s' : state) :
  dispatch e c s = Ok s' ->
  currentBatchId s' = currentBatchId s \/
  (c = OpenBatch /\ currentBatchId s' = currentBatchId s + 1).
Proof. intros H. invert_dispatch H; boolprops; auto. Qed.

(** C7 (as amended).  The batch counter is 0 and no batch is open after the
    constructor, and a transaction either leaves the counter or, when it is
    a successful [openBatch], adds one to it; so batch identifiers start at 1
    and strictly increase.  Called by the owner while the contract is not
    paused, [openBatch] reverts with [InvalidBatchOperation] exactly when a
    batch is already open; otherwise, the counter being below [2^256 - 1],
    it succeeds, adds one to the counter, marks the batch open and sets the
    two totals of the new batch to the encryption of zero and its flag to the
    encryption of false.  Called by the owner while not paused in a reachable
    state, [closeBatch] reverts exactly when no batch is open, with
    [InvalidBatchOperation]; otherwise it succeeds, marks the batch closed,
    keeps the counter and overwrites the flag of the current batch with the
    comparison of its totals.  Whether or not a batch is open, both functions
    revert with [NotOwner] for every caller other than the owner, and with
    [PausedState] for the owner while the contract is paused. *)
Theorem batch_lifecycle :
  init_law vm ->
  (forall e : env, currentBatchId (constructor e) = 0 /\ batchOpen (constructor e) = false) /\
  (forall (s : state) (e : env) (c : call),
     currentBatchId (transact s (e, c)) = currentBatchId s \/
     (c = OpenBatch /\ currentBatchId (transact s (e, c)) = currentBatchId s + 1)) /\
  (forall (e : env) (s : state),
     msg_sender e = owner s -> paused s = false ->
     (openBatch e s = Revert InvalidBatchOperation <-> batchOpen s = true) /\
     (batchOpen s = false -> currentBatchId s < MAX_UINT256 ->
      exists s',
        openBatch e s = Ok s' /\
        currentBatchId s' = currentBatchId s + 1 /\
        batchOpen s' = true /\
        totalEncryptedCollateral s' (currentBatchId s') = asEuint32 0 /\
        totalEncryptedDebt s' (currentBatchId s') = asEuint32 0 /\
        isProtocolSolvent s' (currentBatchId s') = asEbool false)) /\
  (forall (e : env) (s : state),
     reachable s -> msg_sender e = owner s -> paused s = false ->
     (is_ok (closeBatch e s) = false <-> batchOpen s = false) /\
     (batchOpen s = false -> closeBatch e s = Revert InvalidBatchOperation) /\
     (batchOpen s = true ->
      exists s',
        closeBatch e s = Ok s' /\
        batchOpen s' = false /\
        currentBatchId s' = currentBatchId s /\
        isProtocolSolvent s' (currentBatchId s) =
          fhe_ge (totalEncryptedCollateral s (currentBatchId s))
                 (totalEncryptedDebt s (currentBatchId s)))) /\
  (forall (e : env) (s : state),
     (msg_sender e <> owner s ->
      openBatch e s = Revert NotOwner /\ closeBatch e s = Revert NotOwner) /\
     (msg_sender e = owner s -> paused s = true ->
      openBatch e s = Revert PausedState /\ closeBatch e s = Revert PausedState)).
Proof.
  intros L. split; [|split; [|split; [|split]]].
  - intros e. simpl. auto.
  - intros s e c.
    destruct (transact_cases s e c) as [(s' & H & ->)|(err & _ & ->)]; [|auto].
    apply (dispatch_counter e c s s' H).
  - intros e s O P. split.
    + unfold openBatch. modifiers. rewrite O, N.eqb_refl, P. simpl.
      destruct (batchOpen s); [tauto|].
      destruct (checked_add (currentBatchId s) 1) as [n|err] eqn:E; simpl.
      * split; discriminate.
      * apply checked_add_error in E. subst err. split; discriminate.
    + intros B M. unfold openBatch. modifiers. rewrite O, N.eqb_refl, P, B. simpl.
      unfold checked_add. destruct (currentBatchId s + 1 <=? MAX_UINT256) eqn:E;
        boolprops; [|lia].
      eexists. split; [reflexivity|]. simpl. rewrite !upd_same. auto.
  - intros e s R O P.
    destruct (batches_well_formed_reachable s L R) as [BO W].
    assert (K : batchOpen s = true ->
                exists s', closeBatch e s = Ok s' /\ batchOpen s' = false /\
                  currentBatchId s' = currentBatchId s /\
                  isProtocolSolvent s' (currentBatchId s) =
                    fhe_ge (totalEncryptedCollateral s (currentBatchId s))
                           (totalEncryptedDebt s (currentBatchId s))).
    { intros B. specialize (BO B).
      destruct (W (currentBatchId s)) as (WC & WD & _); [lia|].
      unfold closeBatch, _calculateSolvency. modifiers.
      rewrite O, N.eqb_refl, P, B. simpl. rewrite WC, WD. simpl.
      eexists. split; [reflexivity|]. simpl. rewrite upd_same. auto. }
    assert (N : batchOpen s = false -> closeBatch e s = Revert InvalidBatchOperation).
    { intros B. unfold closeBatch. modifiers. rewrite O, N.eqb_refl, P, B. reflexivity. }
    split; [|split; assumption].
    destruct (batchOpen s) eqn:B.
    + destruct (K eq_refl) as (s' & -> & _). simpl. split; discriminate.
    + rewrite (N eq_refl). simpl. tauto.
  - intros e s. split.
    + intros O. apply N.eqb_neq in O.
      unfold openBatch, closeBatch. modifiers. rewrite O. simpl. auto.
    + intros O P.
      unfold openBatch, closeBatch. modifiers. rewrite O, N.eqb_refl, P. simpl. auto.
Qed.

End Properties.

(** * The statements at work on the plaintext host *)

(** ** The plaintext host obeys the laws *)

Lemma plain_init_law : init_law plainVM.
Proof.
  unfold init_law, isInitialized. cbn [asEuint32 asEbool fhe_add fhe_ge plainVM].
  repeat split; intros.
  - apply negb_true_iff, N.eqb_neq. rewrite N.add_1_r. apply N.neq_succ_0.
  - destruct b; reflexivity.
  - apply negb_true_iff, N.eqb_neq. rewrite N.add_1_r. apply N.neq_succ_0.
  - destruct (_ <=? _); reflexivity.
Qed.

Lemma plain_add_law : add_law plainVM.
Proof.
  unfold add_law. cbn [asEuint32 fhe_add decrypt32 plainVM]. unfold plain_decrypt32.
  split; intros.
  - rewrite N.add_sub. apply N.Div0.mod_mod.
  - rewrite N.add_sub. apply N.Div0.mod_mod.
Qed.

Lemma plain_ge_law : ge_law plainVM.
Proof.
  unfold ge_law. cbn [fhe_ge decrypt32 decryptBool plainVM]. intros a b.
  destruct (plain_decrypt32 b <=? plain_decrypt32 a); reflexivity.
Qed.

Lemma plain_hash_injective : hash_injective plainVM.
Proof. unfold hash_injective. cbn [hashEncode address_this plainVM fold_right]. intros h h' H. lia. Qed.

Lemma plain_hash_nonzero : hash_nonzero plainVM.
Proof. unfold hash_nonzero. cbn [hashEncode address_this plainVM]. intros cts. lia. Qed.

(** Closes a goal between closed terms by evaluation. *)
Ltac by_compute :=
  vm_compute; first [reflexivity | discriminate | intros; discriminate].

(** ** Replay protection *)

(** Bob fulfils request 0; a second fulfilment, by Alice and with another
    payload, is a replay, also after further transactions; the log holds one
    completion event for the request. *)
Lemma replay_protection_witness :
  processed (decryptionContexts fulfilled 0) = true /\
  myCallback (vm := plainVM) (at_time alice 5000) 0 [x00] [x02]
    (run (vm := plainVM) fulfilled [tx_recompute]) = Revert ReplayAttempt /\
  completions 0 (events fulfilled) = 1%nat.
Proof.
  destruct (@replay_protection plainVM) as [A B].
  destruct (A (at_time bob 3000) 0 [x01] [x01] requested fulfilled) as (_ & P & F);
    [by_compute | by_compute |].
  destruct (B plain_hash_nonzero fulfilled) as [_ C].
  { exists (at_time alice 1000), [tx_open; tx_collateral_100; tx_request; tx_fulfil].
    reflexivity. }
  split; [exact P|]. split; [apply F|].
  rewrite (C 0). rewrite P. reflexivity.
Defined.

(** ** Stale fulfilment *)

(** The flag of batch 1 is recomputed between the request and the callback:
    the callback reverts with [StateMismatch] although the signature check
    accepts the proof. *)
Lemma stale_fulfilment_rejected_witness :
  checkSignatures (FHEVM := plainVM) 0 [x01] [x01] = true /\
  myCallback (vm := plainVM) (at_time bob 3000) 0 [x01] [x01]
    (run (vm := plainVM) requested [tx_recompute]) = Revert StateMismatch.
Proof.
  split; [reflexivity|].
  apply (@stale_fulfilment_rejected plainVM plain_hash_injective
           (at_time alice 2000) 1 collateral_only requested [tx_recompute]
           (at_time bob 3000) [x01] [x01]); by_compute.
Defined.

(** ** Owner and providers *)

(** After [transferOwnership] to Bob, who was never added as a provider, the
    owner is not a provider. *)
Lemma owner_not_provider_after_transfer :
  reachable (vm := plainVM) handed_over /\
  owner handed_over = bob /\ isProvider handed_over (owner handed_over) = false.
Proof.
  split; [|split; reflexivity].
  exists (at_time alice 1000), [(at_time alice 1000, TransferOwnership bob)]. reflexivity.
Qed.

Lemma owner_provider_status_witness :
  isProvider bob_added (owner bob_added) = true /\
  transact (vm := plainVM) deployed (at_time bob 1000, RemoveProvider (owner deployed)) = deployed.
Proof.
  destruct (@owner_provider_status plainVM) as (_ & R & K & _). split.
  - apply (K (at_time alice 1000) (AddProvider bob) deployed bob_added);
      [intros n; discriminate | by_compute | by_compute].
  - apply R.
Defined.

(** ** Batch validity *)



(** ** Running totals *)

(** Two collateral submissions by the same address, 100 and then 50, and one
    debt submission of 80. *)
Lemma running_totals_witness :
  let txs := [tx_open; tx_collateral_100; tx_collateral_50; tx_debt_80] in
  let s := run (vm := plainVM) deployed txs in
  acceptedCollateral (vm := plainVM) 1 deployed txs = [101; 51] /\
  decrypt32 (totalEncryptedCollateral s 1) = 150 /\
  decrypt32 (totalEncryptedDebt s 1) = 80 /\
  decrypt32 (homomorphicSum (vm := plainVM) [51; 101]) =
    decrypt32 (totalEncryptedCollateral s 1).
Proof.
  intros txs s.
  destruct (@running_totals_are_homomorphic_sums plainVM plain_add_law
              (at_time alice 1000) txs 1) as (_ & _ & C & D & P & _); [split; by_compute|].
  split; [reflexivity|].
  split; [etransitivity; [exact C | reflexivity]|].
  split; [etransitivity; [exact D | reflexivity]|].
  apply (P [51; 101]). change (Permutation [101; 51] [51; 101]). apply perm_swap.
Defined.

(** ** Solvency *)

(** Collateral 100 against debt 80 is solvent. *)
Lemma solvency_flag_witness :
  decryptBool (FHEVM := plainVM)
    (isProtocolSolvent (run (vm := plainVM) funded [tx_solvency]) 1) = true.
Proof.
  destruct (@solvency_flag_is_snapshot plainVM plain_ge_law (at_time alice 1800) 1 funded
              (run (vm := plainVM) funded [tx_solvency])) as (_ & _ & T & _);
    [left; by_compute|].
  apply T; reflexivity.
Defined.

(** ** Batch lifecycle *)

(** Bob is not the owner, and Alice cannot act while the contract is
    paused: [openBatch] reverts although no batch is open, and [closeBatch]
    reverts although one is. *)
Lemma openBatch_fails_without_open_batch :
  batchOpen deployed = false /\
  openBatch (vm := plainVM) (at_time bob 1000) deployed = Revert NotOwner /\
  batchOpen batch1_closed = false /\
  openBatch (vm := plainVM) (at_time alice 1300)
    (run (vm := plainVM) batch1_closed [tx_pause]) = Revert PausedState /\
  batchOpen batch1_open = true /\
  closeBatch (vm := plainVM) (at_time bob 1100) batch1_open = Revert NotOwner /\
  batchOpen batch1_paused = true /\
  closeBatch (vm := plainVM) (at_time alice 1300) batch1_paused = Revert PausedState.
Proof. repeat split; reflexivity. Qed.

Lemma batch_lifecycle_witness :
  (exists s', openBatch (vm := plainVM) (at_time alice 1000) deployed = Ok s' /\
              currentBatchId s' = 1 /\ batchOpen s' = true) /\
  openBatch (vm := plainVM) (at_time alice 1050) batch1_open = Revert InvalidBatchOperation /\
  (exists s', closeBatch (vm := plainVM) (at_time alice 1100) batch1_open = Ok s' /\
              batchOpen s' = false) /\
  closeBatch (vm := plainVM) (at_time alice 1100) batch1_closed = Revert InvalidBatchOperation.
Proof.
  destruct (@batch_lifecycle plainVM plain_init_law) as (_ & _ & O & C & _).
  split; [|split; [|split]].
  - destruct (O (at_time alice 1000) deployed) as [_ K]; [by_compute | by_compute |].
    destruct K as (s' & H & I & B & _); [by_compute | by_compute |].
    exists s'. rewrite I. auto.
  - apply (O (at_time alice 1050) batch1_open); by_compute.
  - destruct (C (at_time alice 1100) batch1_open) as (_ & _ & K);
      [exists (at_time alice 1000), [tx_open]; reflexivity | by_compute | by_compute |].
    destruct K as (s' & H & B & _); [by_compute|]. exists s'. auto.
  - apply (C (at_time alice 1100) batch1_closed);
      [exists (at_time alice 1000), [tx_open; tx_close]; reflexivity
      | by_compute | by_compute | by_compute].
Defined.

(** ** Cooldown *)

(** Inside the window the call can fail with another error than
    [CooldownActive].  After the window was set to the largest word, Alice's
    submission at time 2000 is before [lastSubmissionTime + cooldownSeconds]
    and reverts on the checked addition; with the contract paused ten seconds
    after her first submission, her submission at time 1520 is inside the
    window of 60 and reverts with [PausedState].  And at time 0 nothing is
    accepted: on a contract deployed and opened at time 0 Alice's first
    submission at time 0 reverts with [CooldownActive], while the same call
    at time 61 is accepted. *)
Lemma cooldown_rule_exceptions :
  (lastSubmissionTime window_max alice = 1500 /\
   cooldownSeconds window_max = MAX_UINT256 /\
   2000 < lastSubmissionTime window_max alice + cooldownSeconds window_max /\
   submitCollateral (vm := plainVM) (at_time alice 2000) 1 5 window_max
     = Revert PanicOverflow) /\
  (lastSubmissionTime paused_in_window alice = 1500 /\
   cooldownSeconds paused_in_window = 60 /\
   submitCollateral (vm := plainVM) (at_time alice 1520) 1 5 paused_in_window
     = Revert PausedState) /\
  (cooldownSeconds opened_at_zero = 60 /\
   lastSubmissionTime opened_at_zero alice = 0 /\
   submitCollateral (vm := plainVM) (at_time alice 0) 1 5 opened_at_zero
     = Revert CooldownActive /\
   is_ok (submitCollateral (vm := plainVM) (at_time alice 61) 1 5 opened_at_zero) = true).
Proof. repeat split; by_compute. Qed.

Lemma submission_cooldown_witness :
  (exists s1,
     submitCollateral (vm := plainVM) (at_time alice 60) 1 5 opened_at_zero = Ok s1 /\
     submitCollateral (vm := plainVM) (at_time alice (60 + 30)) 1 5 s1
       = Revert CooldownActive /\
     is_ok (submitCollateral (vm := plainVM) (at_time alice (60 + 61)) 1 5 s1) = true) /\
  lastSubmissionTime opened_at_zero alice = 0.
Proof.
  destruct (@submission_cooldown plainVM) as (_ & _ & E & _ & _ & F).
  split.
  - apply (E alice 60 1 5 opened_at_zero); by_compute.
  - apply (F (at_time alice 0) [(at_time alice 0, OpenBatch)] (at_time alice 60) 1 5);
      by_compute.
Defined.

(** ** Pause *)

(** While paused, Bob's submission reverts with [NotProvider], not with
    [PausedState]. *)
Lemma paused_call_other_error :
  paused batch1_paused = true /\
  submitCollateral (vm := plainVM) (at_time bob 2000) 1 5 batch1_paused = Revert NotProvider /\
  openBatch (vm := plainVM) (at_time bob 2000) batch1_paused = Revert NotOwner.
Proof. repeat split; reflexivity. Qed.

Lemma paused_blocks_gated_calls_witness :
  submitCollateral (vm := plainVM) (at_time alice 2000) 1 5 batch1_paused = Revert PausedState /\
  transact (vm := plainVM) batch1_paused (at_time alice 2000, SubmitCollateral 1 5)
    = batch1_paused /\
  totalEncryptedCollateral
    (run (vm := plainVM) batch1_paused [(at_time alice 2000, Unpause)]) =
  totalEncryptedCollateral batch1_paused.
Proof.
  destruct (@paused_blocks_gated_calls plainVM (at_time alice 2000) batch1_paused) as [P U].
  destruct P as (SC & _ & _ & _ & _ & _ & T); [by_compute|].
  split; [apply SC|]. split; [apply T; reflexivity|].
  apply (U (run (vm := plainVM) batch1_paused [(at_time alice 2000, Unpause)])).
  by_compute.
Defined.

(** * Further properties of the contract *)

Section Conduct.

Context {vm : FHEVM}.

Ltac guards_in H :=
  unfold transferOwnership, addProvider, removeProvider, setCooldownSeconds,
    pause, unpause, openBatch, closeBatch, submitCollateral, submitDebt,
    calculateSolvency, requestSolvencyDecryption, myCallback,
    _calculateSolvency, requestDecryption in H;
  unfold onlyOwner, onlyProvider, whenNotPaused, respectCooldown, _initIfNeeded,
    bind in H.

Ltac case_in H :=
  match type of H with
  | context [if ?b then _ else _] => destruct b eqn:?
  | context [match checked_add ?a ?b with _ => _ end] => destruct (checked_add a b) eqn:?
  end.

(** One goal per way the call of [H] can succeed. *)
Ltac succeeded H :=
  guards_in H; repeat (case_in H; simpl in H; try discriminate H);
  injection H as <-; simpl.

Ltac succeeded_call H :=
  match type of H with
  | dispatch _ ?c _ = Ok _ => is_var c; destruct c; simpl in H; succeeded H
  end.

Ltac props :=
  repeat match goal with
  | H : negb _ = true |- _ => apply negb_true_iff in H
  | H : negb _ = false |- _ => apply negb_false_iff in H
  | H : _ && _ = true |- _ => apply andb_prop in H; destruct H
  | H : _ && _ = false |- _ => apply andb_false_iff in H
  | H : (_ =? _) = true |- _ => apply N.eqb_eq in H
  | H : (_ =? _) = false |- _ => apply N.eqb_neq in H
  | H : (_ <? _) = true |- _ => apply N.ltb_lt in H
  | H : (_ <? _) = false |- _ => apply N.ltb_ge in H
  | H : (_ <=? _) = true |- _ => apply N.leb_le in H
  | H : (_ <=? _) = false |- _ => apply N.leb_gt in H
  | H : checked_add _ _ = Ok _ |- _ => apply checked_add_ok in H; destruct H; subst
  | H : checked_add _ _ = Revert ?err |- _ =>
      pose proof (checked_add_error _ _ _ H); subst err;
      apply checked_add_overflow in H
  end.

(** ** Who can do what *)

(** A caller that is neither the owner nor a provider is turned away by the
    role modifier of every function that has one, before any other check:
    the owner functions revert with [NotOwner], the provider functions with
    [NotProvider], and the storage stays as it was.  The fulfilment callback
    is the one entry point left to such a caller. *)
Theorem outsider_is_locked_out :
  forall (e : env) (c : call) (s : state),
    outsider e s = true ->
    (ownerOnly c = true -> dispatch e c s = Revert NotOwner) /\
    (providerOnly c = true -> dispatch e c s = Revert NotProvider) /\
    (ownerOnly c = true \/ providerOnly c = true -> transact s (e, c) = s) /\
    (ownerOnly c = false -> providerOnly c = false ->
     exists r cleartexts proof, c = MyCallback r cleartexts proof).
Proof.
  intros e c s O. unfold outsider in O. apply andb_prop in O. destruct O as [NO NP].
  assert (A : ownerOnly c = true -> dispatch e c s = Revert NotOwner).
  { destruct c; simpl; try discriminate; intros _;
      unfold transferOwnership, addProvider, removeProvider, setCooldownSeconds,
        pause, unpause, openBatch, closeBatch, onlyOwner, bind;
      rewrite NO; reflexivity. }
  assert (B : providerOnly c = true -> dispatch e c s = Revert NotProvider).
  { destruct c; simpl; try discriminate; intros _;
      unfold submitCollateral, submitDebt, calculateSolvency, requestSolvencyDecryption,
        onlyProvider, bind;
      rewrite NP; reflexivity. }
  repeat split; auto.
  - intros [H|H]; unfold transact; simpl; [rewrite (A H) | rewrite (B H)]; reflexivity.
  - destruct c; simpl; try discriminate; eauto.
Qed.

(** A successful call made by anybody but the owner leaves the owner, the
    provider set, the cooldown window, the pause flag, the batch counter and
    the open flag as they were: providers submit, recompute and request, the
    callback finalises, and nothing else is in their reach. *)
Theorem administration_is_owner_only :
  forall (e : env) (c : call) (s s' : state),
    msg_sender e <> owner s ->
    dispatch e c s = Ok s' ->
    owner s' = owner s /\
    isProvider s' = isProvider s /\
    cooldownSeconds s' = cooldownSeconds s /\
    paused s' = paused s /\
    currentBatchId s' = currentBatchId s /\
    batchOpen s' = batchOpen s.
Proof.
  intros e c s s' NO H. succeeded_call H; props; try contradiction; repeat split; auto.
Qed.

(** ** The log *)

Lemma dispatch_log (e : env) (c : call) (s s' : state) :
  dispatch e c s = Ok s' ->
  s' = s \/
  (exists ev, events s' = events s ++ [ev]) \/
  (exists ev ev', events s' = events s ++ [ev; ev']).
Proof.
  intros H. succeeded_call H; auto; try (right; left; eexists; reflexivity).
  right; right. rewrite <- app_assoc. simpl. eauto.
Qed.

(** The log is append-only and complete: a transaction appends at most two
    events and rewrites none, and a transaction that appends nothing has
    left the whole storage as it was.  Along a trace the log only grows. *)
Theorem every_change_is_logged :
  forall (s : state) (tx : env * call),
    (exists evs, events (transact s tx) = events s ++ evs /\ (length evs <= 2)%nat) /\
    (events (transact s tx) = events s -> transact s tx = s) /\
    (forall txs, exists evs, events (run s txs) = events s ++ evs).
Proof.
  assert (step : forall s tx,
            transact s tx = s \/
            (exists ev, events (transact s tx) = events s ++ [ev]) \/
            (exists ev ev', events (transact s tx) = events s ++ [ev; ev'])).
  { intros s [e c].
    destruct (transact_cases s e c) as [(s' & H & ->)|(err & _ & ->)]; [|auto].
    apply (dispatch_log e c s s' H). }
  intros s tx. split; [|split].
  - destruct (step s tx) as [->|[(ev & ->)|(ev & ev' & ->)]].
    + exists []. rewrite app_nil_r. auto.
    + exists [ev]. auto.
    + exists [ev; ev']. auto.
  - intros E. destruct (step s tx) as [?|[(ev & H)|(ev & ev' & H)]]; [assumption| |];
      rewrite H in E; apply (f_equal (@length event)) in E;
      rewrite length_app in E; simpl in E; lia.
  - intros txs. revert s. induction txs as [|tx' txs IH]; intros s; simpl.
    + exists []. now rewrite app_nil_r.
    + destruct (IH (transact s tx')) as (evs & ->).
      destruct (step s tx') as [->|[(ev & ->)|(ev & ev' & ->)]].
      * eauto.
      * rewrite <- app_assoc. eauto.
      * rewrite <- app_assoc. eauto.
Qed.

(** ** Pausing and the provider set *)

(** [pause] by the owner reverts with [PausedState] when the contract is
    already paused.  Otherwise it succeeds, and an [unpause] right after it
    brings back the storage of before, the two events in the log apart.
    [unpause] has no such test: it succeeds for the owner whether or not the
    contract is paused, and logs [Unpaused] each time. *)
Theorem pause_then_unpause :
  forall (e : env) (s : state),
    msg_sender e = owner s ->
    (paused s = true -> pause e s = Revert PausedState) /\
    (paused s = false ->
     exists s1 s2,
       pause e s = Ok s1 /\ paused s1 = true /\
       unpause e s1 = Ok s2 /\
       forget_log s2 = forget_log s /\
       events s2 = events s ++ [Paused (msg_sender e); Unpaused (msg_sender e)]) /\
    (exists s1, unpause e s = Ok s1 /\ paused s1 = false /\
                events s1 = events s ++ [Unpaused (msg_sender e)]).
Proof.
  intros e s O. repeat split.
  - intros P. unfold pause, onlyOwner, whenNotPaused, bind.
    rewrite O, N.eqb_refl, P. reflexivity.
  - intros P.
    exists (emit (Paused (msg_sender e)) (set_paused true s)).
    exists (emit (Unpaused (msg_sender e))
              (set_paused false (emit (Paused (msg_sender e)) (set_paused true s)))).
    unfold pause, unpause, onlyOwner, whenNotPaused, bind. simpl.
    rewrite O, N.eqb_refl, P. simpl.
    repeat split; auto.
    + unfold forget_log. simpl. now rewrite P.
    + now rewrite <- app_assoc.
  - unfold unpause, onlyOwner, bind. rewrite O, N.eqb_refl. simpl.
    eexists. split; [reflexivity|]. auto.
Qed.

(** The owner's [addProvider] always succeeds and is idempotent: a second
    call for the same address changes nothing and logs nothing.  The owner's
    [removeProvider] of an address other than the owner makes that address a
    non-provider, whose submissions then revert with [NotProvider], and
    leaves the status of every other address alone. *)
Theorem provider_management :
  forall (e : env) (a : address) (s : state),
    msg_sender e = owner s ->
    (exists s1, addProvider e a s = Ok s1 /\ isProvider s1 a = true /\
                addProvider e a s1 = Ok s1 /\
                forall a', a' <> a -> isProvider s1 a' = isProvider s a') /\
    (a <> owner s ->
     exists s2, removeProvider e a s = Ok s2 /\ isProvider s2 a = false /\
                removeProvider e a s2 = Ok s2 /\
                (forall a', a' <> a -> isProvider s2 a' = isProvider s a') /\
                (forall e' b v, msg_sender e' = a ->
                   submitCollateral e' b v s2 = Revert NotProvider /\
                   submitDebt e' b v s2 = Revert NotProvider)).
Proof.
  intros e a s O.
  assert (G : forall s0, owner s0 = owner s -> negb (msg_sender e =? owner s0) = false).
  { intros s0 ->. rewrite O, N.eqb_refl. reflexivity. }
  split.
  - destruct (isProvider s a) eqn:P.
    + exists s. unfold addProvider, onlyOwner, bind. rewrite (G s eq_refl), P. simpl. auto.
    + exists (emit (ProviderAdded a) (set_isProvider (upd (isProvider s) a true) s)).
      unfold addProvider, onlyOwner, bind. simpl. rewrite (G s eq_refl), P, upd_same. simpl.
      repeat split; auto. intros a' D. now apply upd_other.
  - intros NA. apply N.eqb_neq in NA as NA'.
    destruct (isProvider s a) eqn:P.
    + exists (emit (ProviderRemoved a) (set_isProvider (upd (isProvider s) a false) s)).
      unfold removeProvider, onlyOwner, bind. simpl.
      rewrite (G s eq_refl), P, NA', upd_same. simpl.
      repeat split; auto.
      * intros a' D. now apply upd_other.
      * unfold submitCollateral, onlyProvider, bind. simpl. rewrite H, upd_same. reflexivity.
      * unfold submitDebt, onlyProvider, bind. simpl. rewrite H, upd_same. reflexivity.
    + exists s. unfold removeProvider, onlyOwner, bind. rewrite (G s eq_refl), P. simpl.
      repeat split; auto.
      * unfold submitCollateral, onlyProvider, bind. rewrite H, P. reflexivity.
      * unfold submitDebt, onlyProvider, bind. rewrite H, P. reflexivity.
Qed.

(** ** Batches and requests in the log *)

Lemma consecutive_snoc (first n : N) :
  consecutive first (n + 1) = consecutive first n ++ [first + n].
Proof.
  unfold consecutive. replace (N.to_nat (n + 1)) with (S (N.to_nat n)) by lia.
  rewrite seq_S, map_app. simpl. f_equal. f_equal. lia.
Qed.

Lemma openedBatches_app (log : list event) (ev : event) :
  openedBatches (log ++ [ev]) = openedBatches log ++ openedOf ev.
Proof. unfold openedBatches. rewrite flat_map_app. simpl. now rewrite app_nil_r. Qed.

Lemma closedBatches_app (log : list event) (ev : event) :
  closedBatches (log ++ [ev]) = closedBatches log ++ closedOf ev.
Proof. unfold closedBatches. rewrite flat_map_app. simpl. now rewrite app_nil_r. Qed.

Lemma requestedIds_app (log : list event) (ev : event) :
  requestedIds (log ++ [ev]) = requestedIds log ++ requestedOf ev.
Proof. unfold requestedIds. rewrite flat_map_app. simpl. now rewrite app_nil_r. Qed.

Lemma batch_log_consistent_step (e : env) (c : call) (s s' : state) :
  batch_log_consistent s -> dispatch e c s = Ok s' -> batch_log_consistent s'.
Proof.
  intros (B & O & C) H. unfold batch_log_consistent.
  succeeded_call H; props;
    rewrite ?openedBatches_app, ?closedBatches_app; simpl; rewrite ?app_nil_r;
    try (repeat split; assumption).
  - (* openBatch *)
    rewrite O, C, N.sub_0_r, N.add_sub.
    repeat split; [lia | rewrite consecutive_snoc; f_equal; f_equal; lia].
  - (* closeBatch *)
    match goal with E : batchOpen s = true |- _ => rewrite E in C; specialize (B E) end.
    rewrite O, C, N.sub_0_r.
    repeat split; [discriminate|].
    replace (currentBatchId s) with (currentBatchId s - 1 + 1) at 3 by lia.
    rewrite consecutive_snoc. f_equal. f_equal. lia.
Qed.

(** In every reachable state the [BatchOpened] events of the log carry
    exactly the identifiers 1, 2, ..., [currentBatchId], in this order, and
    the [BatchClosed] events the same identifiers up to the last closed
    batch: batch identifiers are dense and never reused, a batch is closed at
    most once and before the next one is opened, and a batch can only be open
    once one exists. *)
Theorem batch_events_are_consecutive :
  forall s : state, reachable s ->
    openedBatches (events s) = consecutive 1 (currentBatchId s) /\
    closedBatches (events s) =
      consecutive 1 (currentBatchId s - (if batchOpen s then 1 else 0)) /\
    (batchOpen s = true -> 1 <= currentBatchId s).
Proof.
  intros s R.
  assert (I : batch_log_consistent s).
  { revert s R. apply reachable_ind.
    - intros e. unfold batch_log_consistent. simpl. repeat split. discriminate.
    - intros e c s s' I H. eapply batch_log_consistent_step; eauto. }
  destruct I as (B & O & C). auto.
Qed.

Lemma requests_consistent_step (e : env) (c : call) (s s' : state) :
  requests_consistent s -> dispatch e c s = Ok s' -> requests_consistent s'.
Proof.
  intros (L & K) H. unfold requests_consistent.
  pose proof (dispatch_counter e c s s' H) as M.
  assert (M' : currentBatchId s <= currentBatchId s') by (destruct M as [->|[_ ->]]; lia).
  clear M.
  succeeded_call H; props; simpl in M';
    rewrite ?requestedIds_app; simpl; rewrite ?app_nil_r;
    try (split; [assumption | intros r R; destruct (K r R) as (V & W); split; [lia | assumption]]).
  - (* requestSolvencyDecryption *)
    split; [rewrite L, consecutive_snoc; reflexivity|].
    intros r R. unfold upd. destruct (r =? counterRequest s) eqn:E; props; simpl.
    + match goal with V : _isValidBatch _ _ = true |- _ => apply isValidBatch_iff in V end.
      split; [assumption|]. eexists. split; [|reflexivity]. assumption.
    + apply K. lia.
  - (* myCallback *)
    split; [assumption|]. intros r R. unfold upd.
    destruct (r =? requestId) eqn:E; props; simpl; [subst r|]; apply K; assumption.
Qed.

(** In every reachable state the [DecryptionRequested] events of the log
    carry exactly the identifiers 0, 1, ..., [counterRequest - 1], in this
    order, so no identifier is handed out twice; and every request stored
    under such an identifier names a batch that exists and holds the
    fingerprint of an initialised ciphertext. *)
Theorem requests_are_numbered :
  forall s : state, reachable s ->
    requestedIds (events s) = consecutive 0 (counterRequest s) /\
    forall r, r < counterRequest s ->
      1 <= batchId (decryptionContexts s r) <= currentBatchId s /\
      exists h, isInitialized h = true /\
                stateHash (decryptionContexts s r) = _hashCiphertexts [toBytes32 h].
Proof.
  apply reachable_ind.
  - intros e. simpl. split; [reflexivity | intros r R; lia].
  - intros e c s s' I H. exact (requests_consistent_step e c s s' I H).
Qed.

(** ** What is stored per participant *)

Lemma last_app_default {A : Type} (l1 l2 : list A) (d : A) :
  last (l1 ++ l2) d = last l2 (last l1 d).
Proof.
  revert l1. induction l2 as [|x l2 IH] using rev_ind; intros l1.
  - now rewrite app_nil_r.
  - rewrite app_assoc, !last_last. reflexivity.
Qed.

Lemma dispatch_participant (e : env) (c : call) (s s' : state) (b : uint256) (a : address) :
  dispatch e c s = Ok s' ->
  encryptedCollateralAmounts s' b a =
    last (collateralBy b a (e, c)) (encryptedCollateralAmounts s b a) /\
  encryptedDebtAmounts s' b a =
    last (debtBy b a (e, c)) (encryptedDebtAmounts s b a).
Proof.
  intros H. unfold collateralBy, debtBy. succeeded_call H; auto.
  - unfold upd2, upd. rewrite (N.eqb_sym batchId0 b), (N.eqb_sym (msg_sender e) a).
    destruct (b =? batchId0) eqn:E1; simpl; [|auto].
    apply N.eqb_eq in E1. subst. destruct (a =? msg_sender e); auto.
  - unfold upd2, upd. rewrite (N.eqb_sym batchId0 b), (N.eqb_sym (msg_sender e) a).
    destruct (b =? batchId0) eqn:E1; simpl; [|auto].
    apply N.eqb_eq in E1. subst. destruct (a =? msg_sender e); auto.
Qed.

Lemma run_participant (b : uint256) (a : address) (txs : list (env * call)) (s : state) :
  encryptedCollateralAmounts (run s txs) b a =
    last (acceptedCollateralBy b a s txs) (encryptedCollateralAmounts s b a) /\
  encryptedDebtAmounts (run s txs) b a =
    last (acceptedDebtBy b a s txs) (encryptedDebtAmounts s b a).
Proof.
  revert s. induction txs as [|[e c] txs IH]; intros s; simpl; [auto|].
  destruct (IH (transact s (e, c))) as [IC ID]. rewrite IC, ID, !last_app_default.
  destruct (transact_cases s e c) as [(s' & H & ->)|(err & H & ->)]; rewrite H; simpl.
  - destruct (dispatch_participant e c s s' b a H) as [-> ->]. auto.
  - auto.
Qed.

(** The per-participant slots are last-write-wins: after any trace from the
    constructor, the collateral (resp. debt) ciphertext stored for
    participant [a] in batch [b] is the one of the last collateral (resp.
    debt) submission by [a] into [b] that was accepted along the trace, and
    the zero handle when there was none.  Earlier submissions of the same
    participant stay in the running total but not in the slot. *)
Theorem participant_slot_is_last_submission :
  forall (deployer : env) (txs : list (env * call)) (b : uint256) (a : address),
    let s := run (constructor deployer) txs in
    encryptedCollateralAmounts s b a =
      last (acceptedCollateralBy b a (constructor deployer) txs) 0 /\
    encryptedDebtAmounts s b a =
      last (acceptedDebtBy b a (constructor deployer) txs) 0.
Proof.
  intros deployer txs b a. apply (run_participant b a txs (constructor deployer)).
Qed.

(** ** The extent of the batch storage *)

Lemma beyond_untouched_step (e : env) (c : call) (s s' : state) :
  beyond_untouched s -> dispatch e c s = Ok s' -> beyond_untouched s'.
Proof.
  intros I H.
  succeeded_call H; props; try assumption; intros b R; simpl in R; simpl.
  - (* openBatch *)
    rewrite !upd_other by lia. apply I. lia.
  - (* closeBatch: the current batch has initialised totals, so it exists *)
    assert (E : currentBatchId s <> 0).
    { intros Z. destruct (I 0) as (T & _); [auto|]. rewrite Z, T in *. discriminate. }
    rewrite upd_other by lia. apply I. assumption.
  - (* submitCollateral *)
    match goal with V : _isValidBatch _ _ = true |- _ => apply isValidBatch_iff in V end.
    unfold upd2. rewrite !upd_other by lia. apply I. assumption.
  - (* submitDebt *)
    match goal with V : _isValidBatch _ _ = true |- _ => apply isValidBatch_iff in V end.
    unfold upd2. rewrite !upd_other by lia. apply I. assumption.
  - (* calculateSolvency *)
    match goal with V : _isValidBatch _ _ = true |- _ => apply isValidBatch_iff in V end.
    rewrite upd_other by lia. apply I. assumption.
Qed.

Lemma beyond_untouched_reachable (s : state) : reachable s -> beyond_untouched s.
Proof.
  apply reachable_ind.
  - intros e b R. simpl. auto.
  - intros e c s0 s1 I H. eapply beyond_untouched_step; eauto.
Qed.

(** In every reachable state the storage of a batch is written exactly when
    the batch exists: for an identifier from 1 to the counter the two totals
    and the flag are initialised ciphertexts, and for 0 and for every
    identifier above the counter the totals, the flag and every
    per-participant slot still hold the zero handle.  The library is taken
    to return initialised handles. *)
Theorem batch_storage_extent :
  init_law vm ->
  forall s : state, reachable s ->
  forall b : uint256,
    (isInitialized (totalEncryptedCollateral s b) = true <-> 1 <= b <= currentBatchId s) /\
    (isInitialized (totalEncryptedDebt s b) = true <-> 1 <= b <= currentBatchId s) /\
    (isInitialized (isProtocolSolvent s b) = true <-> 1 <= b <= currentBatchId s) /\
    (b = 0 \/ currentBatchId s < b ->
     forall a, encryptedCollateralAmounts s b a = 0 /\ encryptedDebtAmounts s b a = 0).
Proof.
  intros L s R b.
  destruct (batches_well_formed_reachable s L R) as [_ W].
  pose proof (beyond_untouched_reachable s R b) as U.
  assert (D : 1 <= b <= currentBatchId s \/ (b = 0 \/ currentBatchId s < b)) by lia.
  destruct D as [D|D].
  - destruct (W b D) as (WC & WD & WS). repeat split; auto; lia.
  - destruct (U D) as (UC & UD & US & UA). rewrite UC, UD, US.
    repeat split; try discriminate; try lia; apply UA.
Qed.

(** ** Recomputation and requests *)

(** In a reachable state [calculateSolvency] never reverts with
    [NotInitialized]: for a provider, while the contract is not paused, once
    the submission cooldown of the caller has elapsed and for a batch that
    exists, it succeeds.  It is checked against the submission cooldown but
    records no timestamp, so the same call made again in the post-state, at
    the same time, succeeds again.  The library is taken to return
    initialised handles. *)
Theorem recomputation_is_available :
  init_law vm ->
  forall (s : state) (e : env) (b : uint256),
    reachable s ->
    calculateSolvency e b s <> Revert NotInitialized /\
    (isProvider s (msg_sender e) = true -> paused s = false ->
     cooldown_elapsed e (lastSubmissionTime s) s -> _isValidBatch b s = true ->
     exists s',
       calculateSolvency e b s = Ok s' /\
       lastSubmissionTime s' = lastSubmissionTime s /\
       lastDecryptionRequestTime s' = lastDecryptionRequestTime s /\
       is_ok (calculateSolvency e b s') = true).
Proof.
  intros L s e b R.
  destruct (batches_well_formed_reachable s L R) as [_ W].
  assert (A : _isValidBatch b s = true ->
              _calculateSolvency b s =
                Ok (emit (SolvencyCalculated b
                            (toBytes32 (fhe_ge (totalEncryptedCollateral s b)
                                               (totalEncryptedDebt s b))))
                      (set_isProtocolSolvent
                         (upd (isProtocolSolvent s) b
                            (fhe_ge (totalEncryptedCollateral s b)
                                    (totalEncryptedDebt s b))) s))).
  { intros V. apply isValidBatch_iff in V. destruct (W b V) as (WC & WD & _).
    unfold _calculateSolvency, _initIfNeeded, bind. rewrite WC, WD. reflexivity. }
  split.
  - unfold calculateSolvency, onlyProvider, whenNotPaused, respectCooldown, bind.
    destruct (negb (isProvider s (msg_sender e))); [discriminate|].
    destruct (paused s); [discriminate|].
    destruct (checked_add _ _) as [d|err] eqn:E.
    + destruct (block_timestamp e <? d); [discriminate|].
      destruct (_isValidBatch b s) eqn:V; simpl; [|discriminate].
      rewrite (A eq_refl). discriminate.
    + apply checked_add_error in E. subst err. discriminate.
  - intros P Q [C1 C2] V.
    assert (G : forall s0, isProvider s0 = isProvider s -> paused s0 = paused s ->
                  lastSubmissionTime s0 = lastSubmissionTime s ->
                  cooldownSeconds s0 = cooldownSeconds s ->
                  currentBatchId s0 = currentBatchId s ->
                  calculateSolvency e b s0 = _calculateSolvency b s0).
    { intros s0 E1 E2 E3 E4 E5.
      unfold calculateSolvency, onlyProvider, whenNotPaused, respectCooldown,
        checked_add, bind, _isValidBatch in *.
      rewrite E1, E2, E3, E4, E5, P, Q, V. simpl.
      destruct (_ <=? MAX_UINT256) eqn:E; props; [|lia].
      destruct (block_timestamp e <? _) eqn:E'; props; [lia|]. reflexivity. }
    eexists. split; [rewrite (G s); auto|]. simpl. repeat split.
    rewrite G by reflexivity.
    unfold _calculateSolvency, _initIfNeeded, bind. simpl.
    apply isValidBatch_iff in V. destruct (W b V) as (WC & WD & _).
    rewrite WC, WD. reflexivity.
Qed.

(** In a reachable state a decryption request by a provider, while the
    contract is not paused, once the caller's own request cooldown has
    elapsed, for a batch that exists and with the channel's counter below
    the largest word, is accepted.  It stores the batch and the fingerprint
    of the batch's current flag under the next identifier, unprocessed, and
    records the time in the request table only: the submission table, the
    totals and the flags are untouched.  Conversely an accepted submission
    leaves the request table alone, so the two cooldowns run independently. *)
Theorem request_is_accepted :
  init_law vm ->
  forall (s : state) (e : env) (b : uint256),
    reachable s ->
    (isProvider s (msg_sender e) = true -> paused s = false ->
     cooldown_elapsed e (lastDecryptionRequestTime s) s -> _isValidBatch b s = true ->
     counterRequest s < MAX_UINT256 ->
     exists s',
       requestSolvencyDecryption e b s = Ok s' /\
       decryptionContexts s' (counterRequest s) =
         mkContext b (_hashCiphertexts [toBytes32 (isProtocolSolvent s b)]) false /\
       lastDecryptionRequestTime s' (msg_sender e) = block_timestamp e /\
       lastSubmissionTime s' = lastSubmissionTime s /\
       totalEncryptedCollateral s' = totalEncryptedCollateral s /\
       totalEncryptedDebt s' = totalEncryptedDebt s /\
       isProtocolSolvent s' = isProtocolSolvent s) /\
    (forall v s', submitCollateral e b v s = Ok s' \/ submitDebt e b v s = Ok s' ->
       lastDecryptionRequestTime s' = lastDecryptionRequestTime s).
Proof.
  intros L s e b R. split.
  - intros P Q [C1 C2] V M.
    destruct (batches_well_formed_reachable s L R) as [_ W].
    apply isValidBatch_iff in V as V'. destruct (W b V') as (_ & _ & WS).
    unfold requestSolvencyDecryption, requestDecryption, onlyProvider, whenNotPaused,
      respectCooldown, checked_add, _initIfNeeded, bind.
    rewrite P, Q, V, WS. simpl.
    destruct (_ + cooldownSeconds s <=? MAX_UINT256) eqn:E; props; [|lia].
    destruct (block_timestamp e <? _) eqn:E'; props; [lia|].
    destruct (counterRequest s + 1 <=? MAX_UINT256) eqn:E''; props; [|lia].
    eexists. split; [reflexivity|]. simpl. rewrite !upd_same. repeat split.
  - intros v s' [H|H].
    + apply submitCollateral_ok in H. destruct H as (_ & _ & _ & _ & _ & ->). reflexivity.
    + apply submitDebt_ok in H. destruct H as (_ & _ & _ & _ & _ & ->). reflexivity.
Qed.

(** ** Handing over ownership *)

(** After [transferOwnership] to another address the previous owner is
    turned away by every owner function with [NotOwner], the new owner
    passes the owner check (and so can hand the role back), and the previous
    owner keeps the provider status it had. *)
Theorem ownership_moves_whole :
  forall (e : env) (newOwner : address) (s s' : state),
    transferOwnership e newOwner s = Ok s' ->
    newOwner <> msg_sender e ->
    (forall (e' : env) (c : call),
       msg_sender e' = msg_sender e -> ownerOnly c = true ->
       dispatch e' c s' = Revert NotOwner) /\
    (forall e' : env, msg_sender e' = newOwner ->
       onlyOwner e' s' = Ok tt /\
       is_ok (transferOwnership e' (msg_sender e) s') = true) /\
    isProvider s' (msg_sender e) = isProvider s (msg_sender e).
Proof.
  intros e newOwner s s' H D.
  assert (O : owner s' = newOwner /\ isProvider s' = isProvider s).
  { succeeded H. auto. }
  destruct O as [O P]. repeat split.
  - intros e' c S OC.
    assert (N : negb (msg_sender e' =? owner s') = true).
    { rewrite O, S. apply negb_true_iff, N.eqb_neq. congruence. }
    destruct c; simpl in OC; try discriminate; simpl;
      unfold transferOwnership, addProvider, removeProvider, setCooldownSeconds,
        pause, unpause, openBatch, closeBatch, onlyOwner, bind;
      rewrite N; reflexivity.
  - unfold onlyOwner. rewrite H0, O, N.eqb_refl. reflexivity.
  - unfold transferOwnership, onlyOwner, bind. rewrite H0, O, N.eqb_refl. reflexivity.
  - now rewrite P.
Qed.

(** ** The fulfilment callback *)

(** [myCallback] succeeds exactly when the request is not processed, the
    fingerprint of the current flag of its batch is the stored one, the
    signature check accepts and the cleartext payload is one byte long.
    When the first two hold and one of the last two fails it reverts with
    [InvalidProof], which leaves the request pending, so that a later
    well-formed callback still succeeds.  A successful callback marks the
    request processed, keeps its batch and fingerprint, leaves every other
    request, the ledger, the roles and the timestamps alone, and logs the
    decoded boolean: false for the zero byte, true for any other. *)
Theorem callback_outcome :
  forall (e : env) (r : uint256) (cleartexts proof : bytes) (s : state),
    let ctx := decryptionContexts s r in
    let fresh := _hashCiphertexts [toBytes32 (isProtocolSolvent s (batchId ctx))]
                 =? stateHash ctx in
    let wellformed := checkSignatures r cleartexts proof
                      && (N.of_nat (length cleartexts) =? 1) in
    (is_ok (myCallback e r cleartexts proof s) = true <->
       processed ctx = false /\ fresh = true /\ wellformed = true) /\
    (processed ctx = false -> fresh = true -> wellformed = false ->
       myCallback e r cleartexts proof s = Revert InvalidProof) /\
    (forall s', myCallback e r cleartexts proof s = Ok s' ->
       decryptionContexts s' r = mkContext (batchId ctx) (stateHash ctx) true /\
       (forall r', r' <> r -> decryptionContexts s' r' = decryptionContexts s r') /\
       forget_log (set_decryptionContexts (decryptionContexts s) s') = forget_log s /\
       events s' = events s ++
         [DecryptionCompleted r (batchId ctx)
            (negb (Byte.eqb (nth 0 cleartexts x00) x00))]).
Proof.
  intros e r cleartexts proof s ctx fresh wellformed.
  subst ctx fresh wellformed. unfold myCallback.
  destruct (processed (decryptionContexts s r)) eqn:P; simpl.
  { repeat split; try discriminate; intros; intuition discriminate. }
  destruct (_ =? stateHash (decryptionContexts s r)) eqn:F; simpl.
  2:{ repeat split; try discriminate; intros; intuition discriminate. }
  destruct (checkSignatures r cleartexts proof) eqn:C; simpl.
  2:{ repeat split; try discriminate; intros; intuition discriminate. }
  destruct (N.of_nat (length cleartexts) =? 1) eqn:Len; simpl.
  2:{ repeat split; try discriminate; intros; intuition discriminate. }
  repeat split; try discriminate; auto.
  - injection H as <-. simpl. apply upd_same.
  - injection H as <-. simpl. intros r' D. now apply upd_other.
  - injection H as <-. reflexivity.
  - injection H as <-. simpl. rewrite upd_same. reflexivity.
Qed.

(** ** The submission cooldown across functions and addresses *)

(** [submitCollateral], [submitDebt] and [calculateSolvency] are checked
    against one and the same timestamp of the caller: after an accepted
    collateral or debt submission at time [t], each of the three, called by
    the same provider at a time before [t + cooldownSeconds], reverts with
    [CooldownActive], whatever its arguments.  The timestamp is kept per
    address: for any other caller each of the three has the outcome it would
    have had before that submission as far as its guards go, that is, it is
    accepted after the submission if and only if it was before. *)
Theorem submission_cooldown_is_shared :
  forall (e : env) (b : uint256) (v : euint32) (s s' : state),
    submitCollateral e b v s = Ok s' \/ submitDebt e b v s = Ok s' ->
    (forall (e' : env) (b' : uint256) (v' : euint32),
       msg_sender e' = msg_sender e ->
       block_timestamp e + cooldownSeconds s <= MAX_UINT256 ->
       block_timestamp e' < block_timestamp e + cooldownSeconds s ->
       submitCollateral e' b' v' s' = Revert CooldownActive /\
       submitDebt e' b' v' s' = Revert CooldownActive /\
       calculateSolvency e' b' s' = Revert CooldownActive) /\
    (forall (e' : env) (b' : uint256) (v' : euint32),
       msg_sender e' <> msg_sender e ->
       is_ok (submitCollateral e' b' v' s') = is_ok (submitCollateral e' b' v' s) /\
       is_ok (submitDebt e' b' v' s') = is_ok (submitDebt e' b' v' s)).
Proof.
  intros e b v s s' H.
  assert (F : isProvider s' = isProvider s /\ paused s' = paused s /\
              cooldownSeconds s' = cooldownSeconds s /\
              currentBatchId s' = currentBatchId s /\
              isProvider s (msg_sender e) = true /\ paused s = false /\
              lastSubmissionTime s' = upd (lastSubmissionTime s) (msg_sender e)
                                        (block_timestamp e)).
  { destruct H as [H|H];
      [apply submitCollateral_ok in H | apply submitDebt_ok in H];
      destruct H as (P & Q & _ & _ & _ & ->); simpl; repeat split; auto. }
  destruct F as (FP & FQ & FC & FB & P & Q & FL). split.
  - intros e' b' v' S O L.
    unfold submitCollateral, submitDebt, calculateSolvency, onlyProvider, whenNotPaused,
      respectCooldown, checked_add, bind.
    rewrite FP, FQ, FC, FL, S, P, Q, upd_same. simpl.
    destruct (_ <=? MAX_UINT256) eqn:E; props; [|lia].
    destruct (block_timestamp e' <? _) eqn:E'; props; [|lia]. auto.
  - intros e' b' v' D.
    unfold submitCollateral, submitDebt, onlyProvider, whenNotPaused,
      respectCooldown, bind, _isValidBatch.
    rewrite FP, FQ, FC, FB, FL, upd_other by assumption. simpl.
    destruct (negb (isProvider s (msg_sender e'))); [auto|].
    destruct (paused s); [auto|].
    destruct (checked_add _ _); simpl; [|auto].
    destruct (block_timestamp e' <? _); [auto|].
    destruct (_ && _); simpl; [|auto].
    unfold _initIfNeeded. destruct (negb (isInitialized v')); auto.
Qed.

End Conduct.

(** ** The further properties at work on the plaintext host *)

Ltac evaluate :=
  vm_compute; first [reflexivity | discriminate | intros; discriminate].

(** Bob, who holds no role, is turned away by [pause] and by
    [submitCollateral]. *)
Lemma outsider_is_locked_out_witness :
  dispatch (vm := plainVM) (at_time bob 2000) Pause batch1_open = Revert NotOwner /\
  dispatch (vm := plainVM) (at_time bob 2000) (SubmitCollateral 1 5) batch1_open
    = Revert NotProvider.
Proof.
  split.
  - apply (@outsider_is_locked_out plainVM (at_time bob 2000) Pause batch1_open);
      evaluate.
  - apply (@outsider_is_locked_out plainVM (at_time bob 2000) (SubmitCollateral 1 5)
             batch1_open); evaluate.
Defined.

(** Bob, once a provider, submits; the administration is as before. *)
Lemma administration_is_owner_only_witness :
  let s := run (vm := plainVM) deployed [(at_time alice 1000, AddProvider bob); tx_open] in
  let s' := run (vm := plainVM) s [(at_time bob 1500, SubmitCollateral 1 101)] in
  totalEncryptedCollateral s' 1 <> totalEncryptedCollateral s 1 /\
  owner s' = owner s /\ isProvider s' = isProvider s /\
  cooldownSeconds s' = cooldownSeconds s /\ paused s' = paused s /\
  currentBatchId s' = currentBatchId s /\ batchOpen s' = batchOpen s.
Proof.
  intros s s'. split; [evaluate|].
  apply (@administration_is_owner_only plainVM (at_time bob 1500) (SubmitCollateral 1 101)
           s s'); evaluate.
Defined.

(** Bob's rejected call appends nothing and changes nothing. *)
Lemma every_change_is_logged_witness :
  transact (vm := plainVM) batch1_open (at_time bob 2000, Pause) = batch1_open.
Proof.
  apply (@every_change_is_logged plainVM batch1_open (at_time bob 2000, Pause)).
  evaluate.
Defined.

Lemma pause_then_unpause_witness :
  pause (at_time alice 1200) batch1_paused = Revert PausedState /\
  exists s1 s2,
    pause (at_time alice 1200) batch1_open = Ok s1 /\ paused s1 = true /\
    unpause (at_time alice 1200) s1 = Ok s2 /\
    forget_log s2 = forget_log batch1_open /\
    events s2 = events batch1_open
                  ++ [Paused (msg_sender (at_time alice 1200));
                      Unpaused (msg_sender (at_time alice 1200))].
Proof.
  destruct (pause_then_unpause (at_time alice 1200) batch1_paused) as (A & _);
    [evaluate|].
  destruct (pause_then_unpause (at_time alice 1200) batch1_open) as (_ & B & _);
    [evaluate|].
  split; [apply A; evaluate | apply B; evaluate].
Defined.

(** Alice removes Bob from the providers; his submissions are refused. *)
Lemma provider_management_witness :
  exists s2,
    removeProvider (at_time alice 1100) bob bob_added = Ok s2 /\
    isProvider s2 bob = false /\
    submitCollateral (vm := plainVM) (at_time bob 1500) 1 5 s2 = Revert NotProvider.
Proof.
  destruct (@provider_management plainVM (at_time alice 1100) bob bob_added) as [_ R];
    [evaluate|].
  destruct R as (s2 & H & P & _ & _ & S); [evaluate|].
  exists s2. repeat split; auto. apply (S (at_time bob 1500) 1 5). evaluate.
Defined.

(** Two batches opened, the first one closed. *)
Lemma batch_events_are_consecutive_witness :
  let s := run (vm := plainVM) deployed
             [tx_open; tx_close; (at_time alice 1300, OpenBatch)] in
  openedBatches (events s) = [1; 2] /\ closedBatches (events s) = [1].
Proof.
  intros s.
  destruct (@batch_events_are_consecutive plainVM s) as (O & C & _).
  { exists (at_time alice 1000), [tx_open; tx_close; (at_time alice 1300, OpenBatch)].
    evaluate. }
  split; [rewrite O | rewrite C]; evaluate.
Defined.

Lemma requests_are_numbered_witness :
  requestedIds (events requested) = [0] /\
  1 <= batchId (decryptionContexts requested 0) <= currentBatchId requested.
Proof.
  destruct (@requests_are_numbered plainVM requested) as (I & K).
  { exists (at_time alice 1000), [tx_open; tx_collateral_100; tx_request]. evaluate. }
  split; [rewrite I; evaluate|]. apply K. evaluate.
Defined.

(** In [funded] batch 1 exists and batch 2 does not. *)
Lemma batch_storage_extent_witness :
  isInitialized (totalEncryptedCollateral funded 1) = true /\
  totalEncryptedCollateral funded 2 = 0 /\
  encryptedCollateralAmounts funded 2 alice = 0.
Proof.
  assert (R : reachable (vm := plainVM) funded).
  { exists (at_time alice 1000), [tx_open; tx_collateral_100; tx_debt_80]. evaluate. }
  pose proof (@batch_storage_extent plainVM plain_init_law funded R 1) as (A & _).
  pose proof (@batch_storage_extent plainVM plain_init_law funded R 2) as (_ & _ & _ & B).
  split; [apply A; split; evaluate|].
  split; [evaluate|]. apply B. right. evaluate.
Defined.

(** Two recomputations at the same time both succeed. *)
Lemma recomputation_is_available_witness :
  exists s',
    calculateSolvency (vm := plainVM) (at_time alice 1800) 1 funded = Ok s' /\
    is_ok (calculateSolvency (vm := plainVM) (at_time alice 1800) 1 s') = true.
Proof.
  destruct (@recomputation_is_available plainVM plain_init_law funded
              (at_time alice 1800) 1) as (_ & A).
  { exists (at_time alice 1000), [tx_open; tx_collateral_100; tx_debt_80]. evaluate. }
  destruct A as (s' & H & _ & _ & K); [evaluate | evaluate | split; evaluate | evaluate |].
  exists s'. auto.
Defined.

(** A request made at the very time of a submission is accepted. *)
Lemma request_is_accepted_witness :
  exists s',
    requestSolvencyDecryption (vm := plainVM) (at_time alice 1500) 1 collateral_only = Ok s' /\
    lastDecryptionRequestTime s' alice = 1500 /\
    lastSubmissionTime s' = lastSubmissionTime collateral_only.
Proof.
  destruct (@request_is_accepted plainVM plain_init_law collateral_only
              (at_time alice 1500) 1) as (A & _).
  { exists (at_time alice 1000), [tx_open; tx_collateral_100]. evaluate. }
  destruct A as (s' & H & _ & T & S & _);
    [evaluate | evaluate | split; evaluate | evaluate | evaluate |].
  exists s'. auto.
Defined.

(** After the hand-over to Bob, Alice cannot pause any more and Bob can
    hand the role back. *)
Lemma ownership_moves_whole_witness :
  dispatch (vm := plainVM) (at_time alice 1100) Pause handed_over = Revert NotOwner /\
  is_ok (transferOwnership (at_time bob 1100) alice handed_over) = true.
Proof.
  destruct (ownership_moves_whole (at_time alice 1000) bob deployed handed_over)
    as (A & B & _); [evaluate | evaluate |].
  split.
  - apply (A (at_time alice 1100) Pause); evaluate.
  - apply (B (at_time bob 1100)). evaluate.
Defined.

(** A two-byte payload is refused and the request stays pending; the
    one-byte payload is then accepted. *)
Lemma callback_outcome_witness :
  myCallback (vm := plainVM) (at_time bob 3000) 0 [x01; x01] [x01] requested
    = Revert InvalidProof /\
  is_ok (myCallback (vm := plainVM) (at_time bob 3000) 0 [x00] [x01] requested) = true.
Proof.
  split.
  - apply (@callback_outcome plainVM (at_time bob 3000) 0 [x01; x01] [x01] requested);
      evaluate.
  - apply (@callback_outcome plainVM (at_time bob 3000) 0 [x00] [x01] requested).
    repeat split; evaluate.
Defined.

(** Alice's debt submission and recomputation 30 seconds after her
    collateral submission are both held back by the cooldown. *)
Lemma submission_cooldown_is_shared_witness :
  submitDebt (vm := plainVM) (at_time alice 1530) 1 81 collateral_only
    = Revert CooldownActive /\
  calculateSolvency (vm := plainVM) (at_time alice 1530) 1 collateral_only
    = Revert CooldownActive.
Proof.
  destruct (@submission_cooldown_is_shared plainVM (at_time alice 1500) 1 101
              batch1_open collateral_only) as (A & _); [left; evaluate|].
  destruct (A (at_time alice 1530) 1 81) as (_ & D & C);
    [evaluate | evaluate | evaluate |].
  auto.
Defined.

(** * Properties of the protocol builder *)

Module UiFacts.

Import Stdlib.Strings.String.
Import Ui.
#[local] Open Scope string_scope.
#[local] Open Scope nat_scope.

Section Forms.

Variable number : Type.

Lemma includes_In (l : list string) (m : string) : includes l m = true <-> In m l.
Proof.
  unfold includes. rewrite existsb_exists. split.
  - intros (x & I & E). apply String.eqb_eq in E. now subst.
  - intros I. exists m. split; [assumption | apply String.eqb_refl].
Qed.

Lemma includes_not_In (l : list string) (m : string) : includes l m = false <-> ~ In m l.
Proof. rewrite <- includes_In. destruct (includes l m); split; congruence. Qed.

Lemma remove_appended (l : list string) (m : string) :
  ~ In m l -> filter (fun x => negb (x =? m)%string) (l ++ [m]) = l.
Proof.
  intros N. rewrite filter_app. simpl. rewrite String.eqb_refl. simpl.
  rewrite app_nil_r. induction l as [|x l IH]; simpl; [reflexivity|].
  destruct (x =? m)%string eqn:E.
  - apply String.eqb_eq in E. subst. exfalso. apply N. now left.
  - simpl. f_equal. apply IH. intros I. apply N. now right.
Qed.

Lemma perform_tidy (f : Form number) (g : gesture) :
  fromPalette g -> tidy number f -> tidy number (perform number f g).
Proof.
  intros P (ND & IN & DR). destruct g as [m| |m]; simpl.
  - repeat split; auto. simpl. intros d [= <-]. exact P.
  - unfold handleDrop. destruct (draggedModule number f) as [d|] eqn:D; simpl.
    + destruct (negb (d =? "")%string &&
                negb (includes (new_modules number (newProtocol number f)) d)) eqn:A; simpl.
      * apply andb_prop in A. destruct A as [_ A]. apply negb_true_iff in A.
        apply includes_not_In in A. repeat split; try discriminate.
        -- apply NoDup_app; [assumption | repeat constructor; auto |].
           intros x I [<-|[]]. contradiction.
        -- apply incl_app; [assumption|]. intros x [<-|[]]. apply DR. reflexivity.
      * repeat split; auto; try discriminate.
    + repeat split; auto; try discriminate.
  - unfold removeModule. simpl. repeat split; auto.
    + apply NoDup_filter. assumption.
    + intros x I. apply filter_In in I. apply IN. tauto.
Qed.

Lemma handleDrop_rendered (f : Form number) :
  handleDrop number f = handleDropIn number f f.
Proof.
  unfold handleDrop, handleDropIn. destruct (draggedModule number f); reflexivity.
Qed.

Lemma burst_single (f : Form number) (g : gesture) :
  burst number f [g] = perform number f g.
Proof.
  destruct g; try reflexivity. unfold burst. simpl. symmetry. apply handleDrop_rendered.
Qed.

(** A burst that holds at most one drop keeps the form tidy. *)
Lemma burst_tidy (f : Form number) (gs : list gesture) :
  tidy number f -> Forall fromPalette gs -> drops gs <= 1 -> tidy number (burst number f gs).
Proof.
  intros (NDf & INf & DRf) P D. unfold burst.
  assert (G : forall prev : Form number,
            NoDup (new_modules number (newProtocol number prev)) ->
            incl (new_modules number (newProtocol number prev)) fheModules ->
            (forall d, draggedModule number prev = Some d -> In d fheModules) ->
            (drops gs = 0 \/
             incl (new_modules number (newProtocol number prev))
                  (new_modules number (newProtocol number f))) ->
            tidy number (fold_left (performIn number f) gs prev)).
  { clear NDf. induction P as [|g gs Pg Pgs IH]; intros prev ND IN DR K; simpl.
    - repeat split; assumption.
    - destruct g as [m| |m]; simpl.
      + apply IH; simpl; auto. intros d [= <-]. exact Pg.
      + unfold drops in D, K. simpl in D, K.
        destruct K as [K|K]; [discriminate|].
        assert (Z : drops gs = 0) by (unfold drops; lia).
        apply IH; [unfold drops; lia | | | discriminate | now left].
        * unfold handleDropIn.
          destruct (draggedModule number f) as [d|] eqn:E; simpl; [|assumption].
          destruct (negb (d =? "")%string &&
                    negb (includes (new_modules number (newProtocol number f)) d)) eqn:A;
            simpl; [|assumption].
          apply andb_prop in A. destruct A as [_ A]. apply negb_true_iff in A.
          apply includes_not_In in A.
          apply NoDup_app; [assumption | repeat constructor; auto |].
          intros x I [<-|[]]. apply A, K, I.
        * unfold handleDropIn.
          destruct (draggedModule number f) as [d|] eqn:E; simpl; [|assumption].
          destruct (negb (d =? "")%string &&
                    negb (includes (new_modules number (newProtocol number f)) d));
            simpl; [|assumption].
          apply incl_app; [assumption|]. intros x [<-|[]]. apply DRf. reflexivity.
      + apply IH; simpl; auto.
        * apply NoDup_filter. assumption.
        * intros x I. apply filter_In in I. apply IN. tauto.
        * destruct K as [K|K]; [now left | right].
          intros x I. apply filter_In in I. apply K. tauto. }
  apply G; auto. right. apply incl_refl.
Qed.

(** Start from the empty form of a freshly opened dialog and let every drag
    come from the palette.  As long as at most one drop is handled between
    two renders, the module list of the form never holds a module twice and
    only holds modules of [fheModules], so it has at most five entries; in
    particular this is so when every gesture is followed by a render.  Two
    drops handled by the handlers of one render are another matter: both
    pass the test on the rendered list and both append to the pending one,
    so a module that was not in the form ends up in it twice. *)
Theorem form_modules_stay_tidy :
  (forall (zero : number) (bursts : list (list gesture)),
     Forall (Forall fromPalette) bursts ->
     Forall (fun gs => drops gs <= 1) bursts ->
     let f := session number (emptyForm number zero) bursts in
     NoDup (new_modules number (newProtocol number f)) /\
     incl (new_modules number (newProtocol number f)) fheModules /\
     List.length (new_modules number (newProtocol number f)) <= 5) /\
  (forall (zero : number) (gestures : list gesture),
     Forall fromPalette gestures ->
     let f := fold_left (perform number) gestures (emptyForm number zero) in
     NoDup (new_modules number (newProtocol number f)) /\
     incl (new_modules number (newProtocol number f)) fheModules /\
     List.length (new_modules number (newProtocol number f)) <= 5) /\
  (forall (f : Form number) (m : string),
     draggedModule number f = Some m -> m <> "" ->
     ~ In m (new_modules number (newProtocol number f)) ->
     new_modules number (newProtocol number (burst number f [Drop; Drop]))
       = (new_modules number (newProtocol number f) ++ [m; m])%list /\
     ~ NoDup (new_modules number (newProtocol number (burst number f [Drop; Drop])))).
Proof.
  assert (T0 : forall zero, tidy number (emptyForm number zero)).
  { intros zero. repeat split; simpl; [constructor | intros x [] | discriminate]. }
  assert (fin : forall f, tidy number f ->
            NoDup (new_modules number (newProtocol number f)) /\
            incl (new_modules number (newProtocol number f)) fheModules /\
            List.length (new_modules number (newProtocol number f)) <= 5).
  { intros f (ND & IN & _). repeat split; auto. apply (NoDup_incl_length ND IN). }
  split; [|split].
  - intros zero bursts P D f. apply fin. subst f. unfold session.
    generalize (T0 zero). generalize (emptyForm number zero).
    induction bursts as [|gs bursts IH]; intros f0 T; simpl; [assumption|].
    inversion P; inversion D; subst. apply IH; auto. apply burst_tidy; assumption.
  - intros zero gestures P f. apply fin. subst f.
    generalize (T0 zero). generalize (emptyForm number zero).
    induction P as [|g gs Pg Pgs IH]; intros f0 T; simpl; [assumption|].
    apply IH. apply perform_tidy; assumption.
  - intros f m D NE NI.
    assert (E : new_modules number (newProtocol number (burst number f [Drop; Drop]))
                = (new_modules number (newProtocol number f) ++ [m; m])%list).
    { unfold burst. simpl. unfold handleDropIn. rewrite D.
      apply String.eqb_neq in NE. apply includes_not_In in NI. rewrite NE, NI. simpl.
      now rewrite <- app_assoc. }
    split; [exact E|]. rewrite E. intros ND.
    apply NoDup_remove_2 in ND. apply ND, in_or_app. right. now left.
Qed.

Lemma palette_spec (f : Form number) (m : string) :
  In m (palette number f) <->
  In m fheModules /\ ~ In m (new_modules number (newProtocol number f)).
Proof.
  unfold palette. rewrite filter_In, negb_true_iff, includes_not_In. tauto.
Qed.

#[local] Arguments palette : simpl never.

(** Dragging a module that is not in the form and dropping it appends it at
    the end of the module list, clears the drag and takes the module off the
    palette; removing it again gives back the list of before, and dragging it
    a second time adds nothing.  A drop without a drag, and a drop of the
    empty string, leave the list as it is. *)
Theorem drop_and_remove :
  forall (f : Form number) (m : string),
    let ms := new_modules number (newProtocol number f) in
    let dropped := handleDrop number (handleDragStart number m f) in
    (m <> "" -> ~ In m ms ->
       new_modules number (newProtocol number dropped) = (ms ++ [m])%list /\
       draggedModule number dropped = None /\
       ~ In m (palette number dropped) /\
       new_modules number (newProtocol number (removeModule number m dropped)) = ms /\
       new_modules number
         (newProtocol number (handleDrop number (handleDragStart number m dropped)))
         = (ms ++ [m])%list) /\
    (In m ms -> new_modules number (newProtocol number dropped) = ms) /\
    (draggedModule number f = None ->
       new_modules number (newProtocol number (handleDrop number f)) = ms) /\
    new_modules number
      (newProtocol number (handleDrop number (handleDragStart number "" f))) = ms.
Proof.
  intros f m ms dropped. subst ms dropped. unfold handleDrop, handleDragStart. simpl.
  split; [|split; [|split]].
  - intros NE NI. apply String.eqb_neq in NE. apply includes_not_In in NI.
    rewrite NE, NI. simpl. repeat split.
    + intros I. apply palette_spec in I. destruct I as [_ I]. simpl in I.
      apply I, in_or_app. right. now left.
    + apply remove_appended. now apply includes_not_In.
    + assert (I : includes (new_modules number (newProtocol number f) ++ [m]) m = true).
      { apply includes_In, in_or_app. right. now left. }
      rewrite I. reflexivity.
  - intros I. apply includes_In in I. rewrite I, andb_false_r. reflexivity.
  - intros D. rewrite D. reflexivity.
  - reflexivity.
Qed.

(** The three counters shown above the list never add up to more than the
    number of protocols, and they add up to exactly that number precisely
    when every protocol read from storage carries one of the three known
    statuses. *)
Theorem status_counters :
  forall protocols : list (Protocol number),
    let known p :=
      status number p = "live" \/ status number p = "draft" \/
      status number p = "archived" in
    liveCount number protocols + draftCount number protocols
      + archivedCount number protocols <= List.length protocols /\
    (liveCount number protocols + draftCount number protocols
       + archivedCount number protocols = List.length protocols
     <-> Forall known protocols).
Proof.
  intros protocols known. unfold liveCount, draftCount, archivedCount.
  induction protocols as [|p ps [IH1 IH2]].
  - simpl. split; [lia | split; [constructor | reflexivity]].
  - rewrite Forall_cons_iff. unfold known at 1. cbn [filter].
    destruct (String.eqb_spec (status number p) "live") as [L|L];
    destruct (String.eqb_spec (status number p) "draft") as [D|D];
    destruct (String.eqb_spec (status number p) "archived") as [A|A];
      try congruence; cbn [List.length]; (split; [lia|]); rewrite <- IH2;
      (split; [intros E; split; [tauto || lia | lia] | intros [K E]; lia || tauto]).
Qed.

End Forms.

Section Codec.

Variable number : Type.
Variable toString : number -> string.
Variable parseFloat : string -> number.
Variable btoa : string -> string.
Variable atob : string -> option string.

Lemma substring_all (s : string) : substring 0 (String.length s) s = s.
Proof. induction s as [|c s IH]; simpl; [reflexivity | now rewrite IH]. Qed.

Lemma FHEDecryptNumber_tagged (x : string) :
  FHEDecryptNumber number parseFloat atob ("FHE-" ++ x) = option_map parseFloat (atob x).
Proof.
  unfold FHEDecryptNumber. simpl. rewrite Nat.sub_0_r, substring_all.
  destruct x; reflexivity.
Qed.

(** Decrypting what [FHEEncryptNumber] made gives back the number, for
    every number whose decimal rendering [atob] decodes from its [btoa]
    encoding and [parseFloat] reads back.  A string that carries the marker
    is decoded from its fifth character on, and fails when [atob] rejects
    the rest; a string without the marker is parsed as it is. *)
Theorem encrypt_then_decrypt :
  (forall v : number,
     atob (btoa (toString v)) = Some (toString v) ->
     parseFloat (toString v) = v ->
     FHEDecryptNumber number parseFloat atob (FHEEncryptNumber number toString btoa v)
       = Some v) /\
  (forall x : string,
     FHEDecryptNumber number parseFloat atob ("FHE-" ++ x)
       = option_map parseFloat (atob x)) /\
  (forall s : string,
     prefix "FHE-" s = false ->
     FHEDecryptNumber number parseFloat atob s = Some (parseFloat s)).
Proof.
  repeat split.
  - intros v A P. unfold FHEEncryptNumber. rewrite FHEDecryptNumber_tagged, A. simpl.
    now rewrite P.
  - apply FHEDecryptNumber_tagged.
  - intros s N. unfold FHEDecryptNumber. now rewrite N.
Qed.

End Codec.

(** ** The builder at work on the toy built-ins *)

(** Two modules dropped, the first one dragged again and then removed,
    with a render after every gesture; and one module dropped twice within
    one render. *)
Lemma form_modules_stay_tidy_witness :
  let f := fold_left (perform N)
             [DragStart "FHE-Lend"; Drop; DragStart "FHE-Vault"; Drop;
              DragStart "FHE-Lend"; Drop; Remove "FHE-Lend"]%list
             (emptyForm N 0%N) in
  let dragging := handleDragStart N "FHE-Swap" (emptyForm N 0%N) in
  new_modules N (newProtocol N f) = ["FHE-Vault"]%list /\
  NoDup (new_modules N (newProtocol N f)) /\
  new_modules N (newProtocol N (burst N dragging [Drop; Drop]))
    = ["FHE-Swap"; "FHE-Swap"]%list.
Proof.
  intros f dragging. destruct (form_modules_stay_tidy N) as (_ & A & B).
  split; [reflexivity|]. split.
  - apply (A 0%N
             [DragStart "FHE-Lend"; Drop; DragStart "FHE-Vault"; Drop;
              DragStart "FHE-Lend"; Drop; Remove "FHE-Lend"]%list).
    repeat constructor; simpl; tauto.
  - apply (B dragging "FHE-Swap"); [reflexivity | discriminate | intros []].
Defined.

Lemma drop_and_remove_witness :
  new_modules N
    (newProtocol N
       (removeModule N "FHE-Swap"
          (handleDrop N (handleDragStart N "FHE-Swap" (emptyForm N 0%N))))) = []%list.
Proof.
  destruct (drop_and_remove N (emptyForm N 0%N) "FHE-Swap") as (A & _).
  destruct A as (_ & _ & _ & R & _); [discriminate | intros [] |]. exact R.
Defined.

(** A protocol stored with an unknown status is counted by none of the
    three counters. *)
Lemma status_counters_witness :
  let protocols := [UiToy.protocol "live"; UiToy.protocol "paused";
                    UiToy.protocol "draft"]%list in
  liveCount N protocols + draftCount N protocols + archivedCount N protocols = 2 /\
  ~ (liveCount N protocols + draftCount N protocols + archivedCount N protocols
     = List.length protocols).
Proof.
  intros protocols. split; [reflexivity|]. intros E.
  apply (status_counters N protocols) in E.
  inversion E as [|? ? _ T]. inversion T as [|? ? K _].
  simpl in K. destruct K as [K|[K|K]]; discriminate.
Defined.

Lemma encrypt_then_decrypt_witness :
  FHEEncryptNumber N UiToy.toString UiToy.btoa 1500%N = "FHE-=1500" /\
  FHEDecryptNumber N UiToy.parseFloat UiToy.atob
    (FHEEncryptNumber N UiToy.toString UiToy.btoa 1500%N) = Some 1500%N /\
  FHEDecryptNumber N UiToy.parseFloat UiToy.atob "FHE-1500" = None /\
  FHEDecryptNumber N UiToy.parseFloat UiToy.atob "42" = Some 42%N.
Proof.
  destruct (encrypt_then_decrypt N UiToy.toString UiToy.parseFloat UiToy.btoa UiToy.atob)
    as (A & B & C).
  split; [reflexivity|]. split; [apply A; reflexivity|].
  split; [exact (B "1500") | apply C; reflexivity].
Defined.

End UiFacts.
